(** * The op-proposer submission driver (op-proposer/proposer/driver.go)

    A shallow embedding of the L2 output submitter: construction and mode
    selection, the start/stop lifecycle, output fetching and validation, the
    Direct-Registry proposal decision, the Dispute-Factory retry scheduling,
    the L1-head wait and the dispatch of the proposal transaction.

    The driver talks to collaborators that live outside the file (rollup
    client, contract bindings, transaction manager, metrics, logger, the
    ticker and the [done] channel).  They are a record of oracles over an
    abstract world; every interaction is also appended to a trace, so that
    statements such as "no output fetch is performed" or "the metric is
    recorded once" are statements about that trace. *)

From Stdlib Require Import ZArith List Bool String Lia.
From Stdlib Require Import Strings.Byte.
Import ListNotations.

Local Open Scope Z_scope.

(** ** Data *)

(** [uint64] values are integers; the only arithmetic the driver performs on
    them ([HeadL1.Number+1] and [big.Int.Uint64]) has its wrap-around
    written out with [wrap64]. *)
Definition two64 : Z := 2 ^ 64.
Definition wrap64 (x : Z) : Z := x mod two64.

(** [big.Int.Uint64()]: the low 64 bits of the (non-negative) value. *)
Definition big_Uint64 (x : Z) : Z := wrap64 x.

Definition Bytes32 := list byte.
Definition Address := Z.
Definition Duration := Z.
Definition Handle := nat.
Definition ABI := nat.

Fixpoint bytes_eqb (a b : list byte) : bool :=
  match a, b with
  | [], [] => true
  | x :: a', y :: b' => Byte.eqb x y && bytes_eqb a' b'
  | _, _ => false
  end.

(** [supportedL2OutputVersion = eth.Bytes32{}]: thirty-two zero bytes. *)
Definition supportedL2OutputVersion : Bytes32 := repeat x00 32.

Record L1BlockRef := mkL1BlockRef {
  l1_Hash : Bytes32;
  l1_Number : Z
}.

Record L2BlockRef := mkL2BlockRef {
  l2_Hash : Bytes32;
  l2_Number : Z;
  l2_Time : Z
}.

(** The fields of [eth.SyncStatus] the driver reads. *)
Record SyncStatus := mkSyncStatus {
  CurrentL1 : L1BlockRef;
  HeadL1 : L1BlockRef;
  SafeL2 : L2BlockRef;
  FinalizedL2 : L2BlockRef
}.

Record OutputResponse := mkOutputResponse {
  Version : Bytes32;
  OutputRoot : Bytes32;
  BlockRef : L2BlockRef;
  Status : SyncStatus
}.

Record ProposerConfig := mkProposerConfig {
  L2OutputOracleAddr : option Address;
  DisputeGameFactoryAddr : option Address;
  PollInterval : Duration;
  NetworkTimeout : Duration;
  AllowNonFinalized : bool;
  DisputeGameType : Z;
  ProposalInterval : Duration;
  OutputRetryInterval : Duration;
  WaitNodeSync : bool
}.

(** [DriverSetup]: the configuration; the other fields ([Log], [Metr],
    [Txmgr], [L1Client], [RollupProvider]) are the collaborators of [Env]. *)
Record DriverSetup := mkDriverSetup {
  Cfg : ProposerConfig
}.

(** The driver object, without its lifecycle fields (those are [Lifecycle]).
    A [nil] interface or pointer is [None]. *)
Record L2OutputSubmitter := mkL2OutputSubmitter {
  setup : DriverSetup;
  l2ooContract : option Handle;
  l2ooABI : option ABI;
  dgfContract : option Handle;
  dgfABI : option ABI
}.

Definition cfg (l : L2OutputSubmitter) : ProposerConfig := Cfg (setup l).

(** ** Errors *)

(** The contexts that [fmt.Errorf("...: %w", err)] wraps an error in. *)
Inductive Wrap :=
| WrapCreateL2OO (a : Address)
| WrapCreateDGF (a : Address)
| WrapNextBlockNumber
| WrapFetchingOutput
| WrapRollupClient
| WrapSyncStatus
| WrapOutputAtBlock (block : Z)
| WrapL1BlockNumber
| WrapGetRollupClient.

Inductive Error :=
| ErrProposerNotRunning
| ErrAlreadyRunning
| ErrNeitherAddress
| ErrL2OONotSet
| ErrUnsupportedVersion (got supported : Bytes32)
| ErrBlockMismatch (got requested : Z)
| ErrDone
| ErrWrapped (w : Wrap) (e : Error)
| ErrCollaborator (code : nat).

Inductive PanicKind :=
| NilDereference
| CloseOfClosedChannel
| NonPositiveInterval
| PanicCollaborator (code : nat).

(** What a call produces: a value, an error, a panic, or nothing because the
    bound on loop iterations was reached first. *)
Inductive Res (A : Type) :=
| Ok (a : A)
| Err (e : Error)
| Panic (p : PanicKind)
| OutOfFuel.

Arguments Ok {A} a.
Arguments Err {A} e.
Arguments Panic {A} p.
Arguments OutOfFuel {A}.

(** ** Transactions and the interaction trace *)

Inductive AbiArg :=
| ArgBytes32 (b : Bytes32)
| ArgUint256 (n : Z)
| ArgUint32 (n : Z)
| ArgBytes (b : list byte).

Record TxCandidate := mkTxCandidate {
  TxData : list byte;
  To : option Address;
  GasLimit : Z;
  Value : option Z
}.

Record Receipt := mkReceipt {
  rcpt_Status : Z;
  rcpt_TxHash : Bytes32
}.

Definition ReceiptStatusFailed : Z := 0.
Definition ReceiptStatusSuccessful : Z := 1.

(** [select] between the ticker and the [done] channel. *)
Inductive Sel := SelTick | SelDone.

Inductive Level := LvlDebug | LvlInfo | LvlWarn | LvlError.

Inductive LogMsg :=
| LogConnectedL2OO
| LogConnectedDGF
| LogIntervalNotElapsed
| LogNotReady
| LogWaitingL1Head
| LogProposing
| LogReverted
| LogPublished
| LogNodeSyncError
| LogL2OOOutputError
| LogDGFOutputError
| LogSendFailed
| LogLoopL2OOReturning
| LogLoopDGFReturning.

Inductive Event :=
| EvWithCancel
| EvCancel
| EvNewL2OOCaller (a : Address)
| EvL2OOVersion (h : Handle)
| EvL2OOGetAbi
| EvNewDGFCaller (a : Address)
| EvDGFVersion (h : Handle)
| EvDGFGetAbi
| EvNextBlockNumber (h : Handle) (r : Res Z)
| EvRollupClient
| EvSyncStatus (r : Res SyncStatus)
| EvOutputAtBlock (block : Z) (r : Res OutputResponse)
| EvBlockNumber (r : Res Z)
| EvInitBonds (h : option Handle) (gameType : Z)
| EvSend (c : TxCandidate) (r : Res Receipt)
| EvSelect (s : Sel)
| EvPollDone (closed : bool)
| EvSleep (d : Duration)
| EvWaitRollupSync (l1head : Z)
| EvRecordL2BlocksProposed (r : L2BlockRef)
| EvWgDone
| EvLog (lvl : Level) (m : LogMsg).

(** ** Collaborators *)

(** The collaborators as oracles over a world [W].  A collaborator may
    return a value, fail, panic or never return. *)
Record Env (W : Type) := mkEnv {
  e_NewL2OutputOracleCaller : Address -> W -> Res Handle * W;
  e_L2OOVersion : Handle -> W -> Res string * W;
  e_L2OOGetAbi : W -> Res ABI * W;
  e_NewDisputeGameFactoryCaller : Address -> W -> Res Handle * W;
  e_DGFVersion : Handle -> W -> Res string * W;
  e_DGFGetAbi : W -> Res ABI * W;
  e_NextBlockNumber : Handle -> W -> Res Z * W;
  e_RollupClient : W -> Res Handle * W;
  e_SyncStatus : Handle -> W -> Res SyncStatus * W;
  e_OutputAtBlock : Handle -> Z -> W -> Res OutputResponse * W;
  e_BlockNumber : W -> Res Z * W;
  (* the receiver of [InitBonds] is the possibly nil [dgfContract] *)
  e_InitBonds : option Handle -> Z -> W -> Res Z * W;
  (* [abi.Pack] through a possibly nil [*abi.ABI] *)
  e_Pack : option ABI -> string -> list AbiArg -> Res (list byte);
  e_U256Bytes : Z -> list byte;
  e_Send : TxCandidate -> W -> Res Receipt * W;
  e_select : W -> Sel * W;
  e_poll_done : W -> bool * W;
  e_Sleep : Duration -> W -> W;
  e_WaitRollupSync : Handle -> Z -> W -> Res unit * W
}.

Arguments e_NewL2OutputOracleCaller {W}.
Arguments e_L2OOVersion {W}.
Arguments e_L2OOGetAbi {W}.
Arguments e_NewDisputeGameFactoryCaller {W}.
Arguments e_DGFVersion {W}.
Arguments e_DGFGetAbi {W}.
Arguments e_NextBlockNumber {W}.
Arguments e_RollupClient {W}.
Arguments e_SyncStatus {W}.
Arguments e_OutputAtBlock {W}.
Arguments e_BlockNumber {W}.
Arguments e_InitBonds {W}.
Arguments e_Pack {W}.
Arguments e_U256Bytes {W}.
Arguments e_Send {W}.
Arguments e_select {W}.
Arguments e_poll_done {W}.
Arguments e_Sleep {W}.
Arguments e_WaitRollupSync {W}.

(** ** The monad of driver code *)

Record State (W : Type) := mkState {
  world : W;
  trace : list Event
}.

Arguments mkState {W}.
Arguments world {W}.
Arguments trace {W}.

Definition M (W A : Type) : Type := State W -> Res A * State W.

Definition ret {W A} (a : A) : M W A := fun s => (Ok a, s).

Definition fail {W A} (e : Error) : M W A := fun s => (Err e, s).

Definition panic {W A} (p : PanicKind) : M W A := fun s => (Panic p, s).

Definition bind {W A B} (m : M W A) (k : A -> M W B) : M W B :=
  fun s =>
    match m s with
    | (Ok a, s') => k a s'
    | (Err e, s') => (Err e, s')
    | (Panic p, s') => (Panic p, s')
    | (OutOfFuel, s') => (OutOfFuel, s')
    end.

Declare Scope driver_scope.
Delimit Scope driver_scope with driver.
Notation "x <- m ;; k" := (bind m (fun x => k))
  (at level 61, m at next level, right associativity) : driver_scope.
Notation "m ;; k" := (bind m (fun _ => k))
  (at level 61, right associativity) : driver_scope.

(** [emit ev]: an effect that only leaves its mark on the trace. *)
Definition emit {W} (ev : Event) : M W unit :=
  fun s => (Ok tt, mkState (world s) (trace s ++ [ev])).

(** [call ev f]: ask the collaborator [f]; the answer is traced by [ev]. *)
Definition call {W A} (ev : Res A -> Event) (f : W -> Res A * W) : M W A :=
  fun s => let (r, w') := f (world s) in (r, mkState w' (trace s ++ [ev r])).

(** [return ..., fmt.Errorf("<w>: %w", err)] on the error path of [m]. *)
Definition wrapErr {W A} (w : Wrap) (m : M W A) : M W A :=
  fun s =>
    match m s with
    | (Err e, s') => (Err (ErrWrapped w e), s')
    | other => other
    end.

(** [if err != nil { h; return nil, err }] on the error path of [m]. *)
Definition onErr {W A} (h : M W unit) (m : M W A) : M W A :=
  fun s =>
    match m s with
    | (Err e, s') => (Err e, snd (h s'))
    | other => other
    end.

(** [errors.Is(err, target)] through the [%w] chain. *)
Definition Error_eqb_sentinel (e target : Error) : bool :=
  match e, target with
  | ErrProposerNotRunning, ErrProposerNotRunning => true
  | _, _ => false
  end.

Fixpoint errors_Is (e target : Error) : bool :=
  Error_eqb_sentinel e target ||
  match e with
  | ErrWrapped _ e' => errors_Is e' target
  | _ => false
  end.

(** ** The driver *)

Section Driver.

Context {W : Type} (env : Env W).

Local Open Scope driver_scope.

Definition cancel : M W unit := emit EvCancel.

(** [newL2OOSubmitter] *)
Definition newL2OOSubmitter (setup : DriverSetup) : M W L2OutputSubmitter :=
  match L2OutputOracleAddr (Cfg setup) with
  | None => panic NilDereference
  | Some addr =>
      l2ooContract <- onErr cancel (wrapErr (WrapCreateL2OO addr)
        (call (fun _ => EvNewL2OOCaller addr) (e_NewL2OutputOracleCaller env addr))) ;;
      _ <- onErr cancel
        (call (fun _ => EvL2OOVersion l2ooContract) (e_L2OOVersion env l2ooContract)) ;;
      emit (EvLog LvlInfo LogConnectedL2OO) ;;
      parsed <- onErr cancel (call (fun _ => EvL2OOGetAbi) (e_L2OOGetAbi env)) ;;
      ret {| setup := setup;
             l2ooContract := Some l2ooContract;
             l2ooABI := Some parsed;
             dgfContract := None;
             dgfABI := None |}
  end.

(** [newDGFSubmitter] *)
Definition newDGFSubmitter (setup : DriverSetup) : M W L2OutputSubmitter :=
  match DisputeGameFactoryAddr (Cfg setup) with
  | None => panic NilDereference
  | Some addr =>
      dgfCaller <- onErr cancel (wrapErr (WrapCreateDGF addr)
        (call (fun _ => EvNewDGFCaller addr) (e_NewDisputeGameFactoryCaller env addr))) ;;
      _ <- onErr cancel
        (call (fun _ => EvDGFVersion dgfCaller) (e_DGFVersion env dgfCaller)) ;;
      emit (EvLog LvlInfo LogConnectedDGF) ;;
      parsed <- onErr cancel (call (fun _ => EvDGFGetAbi) (e_DGFGetAbi env)) ;;
      ret {| setup := setup;
             l2ooContract := None;
             l2ooABI := None;
             dgfContract := Some dgfCaller;
             dgfABI := Some parsed |}
  end.

(** The mode selection of [NewL2OutputSubmitter], before its deferred
    function runs. *)
Definition selectMode (setup : DriverSetup) : M W L2OutputSubmitter :=
  match L2OutputOracleAddr (Cfg setup) with
  | Some _ => newL2OOSubmitter setup
  | None =>
      match DisputeGameFactoryAddr (Cfg setup) with
      | Some _ => newDGFSubmitter setup
      | None => fail ErrNeitherAddress
      end
  end.

(** [NewL2OutputSubmitter].  The deferred function cancels the context when
    the body returned an error; when the body panicked, [recover()] stops
    the panic, the context is cancelled and the named results keep their
    zero values, that is [(nil, nil)]. *)
Definition NewL2OutputSubmitter (setup : DriverSetup)
  : M W (option L2OutputSubmitter) :=
  fun s =>
    match (emit EvWithCancel ;; selectMode setup) s with
    | (Ok l, s') => (Ok (Some l), s')
    | (Err e, s') => (Err e, snd (cancel s'))
    | (Panic _, s') => (Ok None, snd (cancel s'))
    | (OutOfFuel, s') => (OutOfFuel, s')
    end.

(** [FetchCurrentBlockNumber] *)
Definition FetchCurrentBlockNumber (l : L2OutputSubmitter) : M W Z :=
  rollupClient <- wrapErr WrapRollupClient
    (call (fun _ => EvRollupClient) (e_RollupClient env)) ;;
  status <- wrapErr WrapSyncStatus
    (call EvSyncStatus (e_SyncStatus env rollupClient)) ;;
  if AllowNonFinalized (cfg l)
  then ret (l2_Number (SafeL2 status))
  else ret (l2_Number (FinalizedL2 status)).

(** [FetchOutput] *)
Definition FetchOutput (l : L2OutputSubmitter) (block : Z) : M W OutputResponse :=
  rollupClient <- wrapErr WrapRollupClient
    (call (fun _ => EvRollupClient) (e_RollupClient env)) ;;
  output <- wrapErr (WrapOutputAtBlock block)
    (call (EvOutputAtBlock block) (e_OutputAtBlock env rollupClient block)) ;;
  if negb (bytes_eqb (Version output) supportedL2OutputVersion)
  then fail (ErrUnsupportedVersion (Version output) supportedL2OutputVersion)
  else if negb (l2_Number (BlockRef output) =? block)
  then fail (ErrBlockMismatch (l2_Number (BlockRef output)) block)
  else ret output.

(** The condition of the [if] at the end of [FetchL2OOOutput]: the output
    is not ready to be proposed. *)
Definition notReady (l : L2OutputSubmitter) (output : OutputResponse) : bool :=
  (l2_Number (BlockRef output) >? l2_Number (FinalizedL2 (Status output)))
  && (negb (AllowNonFinalized (cfg l))
      || (l2_Number (BlockRef output) >? l2_Number (SafeL2 (Status output)))).

(** [FetchL2OOOutput]: the output (possibly nil) and [shouldPropose]. *)
Definition FetchL2OOOutput (l : L2OutputSubmitter)
  : M W (option OutputResponse * bool) :=
  match l2ooContract l with
  | None => fail ErrL2OONotSet
  | Some c =>
      nextCheckpointBlockBig <- wrapErr WrapNextBlockNumber
        (call (EvNextBlockNumber c) (e_NextBlockNumber env c)) ;;
      let nextCheckpointBlock := big_Uint64 nextCheckpointBlockBig in
      currentBlockNumber <- FetchCurrentBlockNumber l ;;
      if currentBlockNumber <? nextCheckpointBlock
      then
        emit (EvLog LvlDebug LogIntervalNotElapsed) ;;
        ret (None, false)
      else
        output <- wrapErr WrapFetchingOutput (FetchOutput l nextCheckpointBlock) ;;
        if notReady l output
        then
          emit (EvLog LvlDebug LogNotReady) ;;
          ret (Some output, false)
        else ret (Some output, true)
  end.

(** [FetchDGFOutput] *)
Definition FetchDGFOutput (l : L2OutputSubmitter) : M W OutputResponse :=
  blockNum <- FetchCurrentBlockNumber l ;;
  FetchOutput l blockNum.

(** [proposeL2OutputTxData] *)
Definition proposeL2OutputTxData (abi : option ABI) (output : OutputResponse)
  : Res (list byte) :=
  e_Pack env abi "proposeL2Output"%string
    [ ArgBytes32 (OutputRoot output);
      ArgUint256 (l2_Number (BlockRef output));
      ArgBytes32 (l1_Hash (CurrentL1 (Status output)));
      ArgUint256 (l1_Number (CurrentL1 (Status output))) ].

(** [ProposeL2OutputTxData] *)
Definition ProposeL2OutputTxData (l : L2OutputSubmitter) (output : OutputResponse)
  : M W (list byte) :=
  fun s => (proposeL2OutputTxData (l2ooABI l) output, s).

(** [proposeL2OutputDGFTxData] *)
Definition proposeL2OutputDGFTxData (abi : option ABI) (gameType : Z)
    (output : OutputResponse) : Res (list byte) :=
  e_Pack env abi "create"%string
    [ ArgUint32 gameType;
      ArgBytes32 (OutputRoot output);
      ArgBytes (e_U256Bytes env (l2_Number (BlockRef output))) ].

(** [ProposeL2OutputDGFTxData]: the call data and the bond. *)
Definition ProposeL2OutputDGFTxData (l : L2OutputSubmitter) (output : OutputResponse)
  : M W (list byte * Z) :=
  bond <- call (fun _ => EvInitBonds (dgfContract l) (DisputeGameType (cfg l)))
               (e_InitBonds env (dgfContract l) (DisputeGameType (cfg l))) ;;
  data <- (fun s => (proposeL2OutputDGFTxData (dgfABI l) (DisputeGameType (cfg l)) output, s)) ;;
  ret (data, bond).

(** The [for l1head <= blockNum] loop of [waitForL1Head]; [fuel] bounds the
    number of iterations. *)
Fixpoint waitLoop (fuel : nat) (blockNum l1head : Z) : M W unit :=
  if l1head <=? blockNum
  then
    match fuel with
    | O => fun s => (OutOfFuel, s)
    | S fuel' =>
        emit (EvLog LvlDebug LogWaitingL1Head) ;;
        fun s =>
          let (sel, w') := e_select env (world s) in
          let s1 := mkState w' (trace s ++ [EvSelect sel]) in
          match sel with
          | SelTick =>
              (l1head' <- call EvBlockNumber (e_BlockNumber env) ;;
               waitLoop fuel' blockNum l1head') s1
          | SelDone => (Err ErrDone, s1)
          end
    end
  else ret tt.

(** [time.NewTicker(d)]: panics when the interval is not positive. *)
Definition newTicker (d : Duration) : M W unit :=
  if d <=? 0 then panic NonPositiveInterval else ret tt.

(** [waitForL1Head] *)
Definition waitForL1Head (fuel : nat) (l : L2OutputSubmitter) (blockNum : Z) : M W unit :=
  newTicker (PollInterval (cfg l)) ;;
  l1head <- call EvBlockNumber (e_BlockNumber env) ;;
  waitLoop fuel blockNum l1head.

(** The two dispatch branches of [sendTransaction]. *)
Definition dispatch (l : L2OutputSubmitter) (output : OutputResponse) : M W Receipt :=
  match DisputeGameFactoryAddr (cfg l) with
  | Some dgf =>
      db <- ProposeL2OutputDGFTxData l output ;;
      let c := {| TxData := fst db; To := Some dgf; GasLimit := 0; Value := Some (snd db) |} in
      call (EvSend c) (e_Send env c)
  | None =>
      data <- ProposeL2OutputTxData l output ;;
      let c := {| TxData := data; To := L2OutputOracleAddr (cfg l); GasLimit := 0; Value := None |} in
      call (EvSend c) (e_Send env c)
  end.

(** [sendTransaction] *)
Definition sendTransaction (fuel : nat) (l : L2OutputSubmitter) (output : OutputResponse)
  : M W unit :=
  waitForL1Head fuel l (wrap64 (l1_Number (HeadL1 (Status output)) + 1)) ;;
  emit (EvLog LvlInfo LogProposing) ;;
  receipt <- dispatch l output ;;
  if rcpt_Status receipt =? ReceiptStatusFailed
  then emit (EvLog LvlError LogReverted)
  else emit (EvLog LvlInfo LogPublished).

(** [proposeOutput]: errors of [sendTransaction] are logged, not returned. *)
Definition proposeOutput (fuel : nat) (l : L2OutputSubmitter) (output : OutputResponse)
  : M W unit :=
  fun s =>
    match sendTransaction fuel l output s with
    | (Err _, s') => emit (EvLog LvlError LogSendFailed) s'
    | (Ok _, s') => emit (EvRecordL2BlocksProposed (BlockRef output)) s'
    | other => other
    end.

(** [time.Sleep] *)
Definition sleep (d : Duration) : M W unit :=
  fun s => (Ok tt, mkState (e_Sleep env d (world s)) (trace s ++ [EvSleep d])).

(** [select { case <-ticker.C: ... case <-l.done: ... }] *)
Definition select : M W Sel :=
  fun s => let (sel, w') := e_select env (world s) in
           (Ok sel, mkState w' (trace s ++ [EvSelect sel])).

(** [select { case <-l.done: return; default: }]: is [done] closed? *)
Definition pollDone : M W bool :=
  fun s => let (closed, w') := e_poll_done env (world s) in
           (Ok closed, mkState w' (trace s ++ [EvPollDone closed])).

(** [defer h]: [h] runs when the body returns or panics. *)
Definition deferred {A} (h : M W unit) (m : M W A) : M W A :=
  fun s =>
    match m s with
    | (OutOfFuel, s') => (OutOfFuel, s')
    | (r, s') => (r, snd (h s'))
    end.

(** [waitNodeSync] *)
Definition waitNodeSync : M W unit :=
  l1head <- wrapErr WrapL1BlockNumber (call EvBlockNumber (e_BlockNumber env)) ;;
  rollupClient <- wrapErr WrapGetRollupClient
    (call (fun _ => EvRollupClient) (e_RollupClient env)) ;;
  call (fun _ => EvWaitRollupSync l1head) (e_WaitRollupSync env rollupClient l1head).

(** [proposeOutput] on the pointer a fetch returned; a nil output is
    dereferenced by [sendTransaction]. *)
Definition proposeOutputPtr (fuel : nat) (l : L2OutputSubmitter)
    (output : option OutputResponse) : M W unit :=
  match output with
  | Some o => proposeOutput fuel l o
  | None => panic NilDereference
  end.

(** One [ticker.C] case of [loopL2OO]; [true] when the loop returns. *)
Definition tickL2OO (wf : nat) (l : L2OutputSubmitter) : M W bool :=
  closed <- pollDone ;;
  if (closed : bool) then ret true
  else
    fun s =>
      match FetchL2OOOutput l s with
      | (Err _, s') => (emit (EvLog LvlWarn LogL2OOOutputError) ;; ret false) s'
      | (Ok (output, shouldPropose), s') =>
          if (shouldPropose : bool)
          then (proposeOutputPtr wf l output ;; ret false) s'
          else (Ok false, s')
      | (Panic p, s') => (Panic p, s')
      | (OutOfFuel, s') => (OutOfFuel, s')
      end.

(** [loopL2OO]; [ticks] bounds the number of [select]s. *)
Fixpoint loopL2OO_body (ticks wf : nat) (l : L2OutputSubmitter) : M W unit :=
  match ticks with
  | O => fun s => (OutOfFuel, s)
  | S ticks' =>
      sel <- select ;;
      match sel with
      | SelTick =>
          stop <- tickL2OO wf l ;;
          if (stop : bool) then ret tt else loopL2OO_body ticks' wf l
      | SelDone => ret tt
      end
  end.

Definition loopL2OO (ticks wf : nat) (l : L2OutputSubmitter) : M W unit :=
  deferred (emit (EvLog LvlInfo LogLoopL2OOReturning))
    (newTicker (PollInterval (cfg l)) ;; loopL2OO_body ticks wf l).

(** The [for output == nil || err != nil] loop of [loopDGF].  [None] is
    the [return] taken when [done] is observed closed; [rf] bounds the
    number of iterations. *)
Fixpoint retryFetch (rf : nat) (l : L2OutputSubmitter) : M W (option OutputResponse) :=
  match rf with
  | O => fun s => (OutOfFuel, s)
  | S rf' =>
      closed <- pollDone ;;
      if (closed : bool) then ret None
      else
        fun s =>
          match FetchDGFOutput l s with
          | (Ok output, s') => (Ok (Some output), s')
          | (Err _, s') =>
              (emit (EvLog LvlWarn LogDGFOutputError) ;;
               sleep (OutputRetryInterval (cfg l)) ;;
               retryFetch rf' l) s'
          | (Panic p, s') => (Panic p, s')
          | (OutOfFuel, s') => (OutOfFuel, s')
          end
  end.

(** One [ticker.C] case of [loopDGF]; [true] when the loop returns. *)
Definition tickDGF (rf wf : nat) (l : L2OutputSubmitter) : M W bool :=
  r <- retryFetch rf l ;;
  match r with
  | None => ret true
  | Some output => proposeOutput wf l output ;; ret false
  end.

(** [loopDGF] *)
Fixpoint loopDGF_body (ticks rf wf : nat) (l : L2OutputSubmitter) : M W unit :=
  match ticks with
  | O => fun s => (OutOfFuel, s)
  | S ticks' =>
      sel <- select ;;
      match sel with
      | SelTick =>
          stop <- tickDGF rf wf l ;;
          if (stop : bool) then ret tt else loopDGF_body ticks' rf wf l
      | SelDone => ret tt
      end
  end.

Definition loopDGF (ticks rf wf : nat) (l : L2OutputSubmitter) : M W unit :=
  deferred (emit (EvLog LvlInfo LogLoopDGFReturning))
    (newTicker (ProposalInterval (cfg l)) ;; loopDGF_body ticks rf wf l).

(** [loop]: the background worker. *)
Definition loop (ticks rf wf : nat) (l : L2OutputSubmitter) : M W unit :=
  deferred (emit EvWgDone)
    (fun s =>
       let after_sync :=
         if WaitNodeSync (cfg l)
         then
           match waitNodeSync s with
           | (Err e, s') => (Err e, snd (emit (EvLog LvlError LogNodeSyncError) s'))
           | other => other
           end
         else (Ok tt, s) in
       match after_sync with
       | (Ok _, s') =>
           match dgfContract l with
           | None => loopL2OO ticks wf l s'
           | Some _ => loopDGF ticks rf wf l s'
           end
       | (Err _, s') => (Ok tt, s')
       | other => other
       end).

End Driver.

(** ** The start/stop lifecycle *)

Module Lifecycle.

(** The lifecycle fields of [L2OutputSubmitter]: the [running] flag, the
    counter of the [sync.WaitGroup], whether the context was cancelled and
    whether [done] was closed; [spawned] counts the [go l.loop()]
    statements executed so far.  The mutex makes each method atomic with
    respect to the others. *)
Record LState := mkLState {
  running : bool;
  wg : nat;
  spawned : nat;
  cancelled : bool;
  done_closed : bool
}.

(** The state [newL2OOSubmitter] and [newDGFSubmitter] build. *)
Definition fresh : LState :=
  {| running := false; wg := 0; spawned := 0; cancelled := false; done_closed := false |}.

(** [StartL2OutputSubmitting] *)
Definition StartL2OutputSubmitting (s : LState) : Res unit * LState :=
  if running s
  then (Err ErrAlreadyRunning, s)
  else (Ok tt, {| running := true;
                  wg := S (wg s);
                  spawned := S (spawned s);
                  cancelled := cancelled s;
                  done_closed := done_closed s |}).

(** The worker's deferred [l.wg.Done()]. *)
Definition workerDone (s : LState) : LState :=
  {| running := running s;
     wg := pred (wg s);
     spawned := spawned s;
     cancelled := cancelled s;
     done_closed := done_closed s |}.

(** [l.wg.Wait()]: returns once the counter is zero, and not before.
    [exits] is the number of workers whose [wg.Done()] runs while the
    caller waits; [OutOfFuel] is a caller that stays blocked. *)
Definition wg_Wait (exits : nat) (s : LState) : Res unit * LState :=
  let s' := Nat.iter (Nat.min exits (wg s)) workerDone s in
  if Nat.eqb (wg s') 0 then (Ok tt, s') else (OutOfFuel, s').

(** [StopL2OutputSubmitting].  Closing a channel that is already closed
    panics. *)
Definition StopL2OutputSubmitting (exits : nat) (s : LState) : Res unit * LState :=
  if negb (running s)
  then (Err ErrProposerNotRunning, s)
  else
    let s1 := {| running := false;
                 wg := wg s;
                 spawned := spawned s;
                 cancelled := true;
                 done_closed := done_closed s |} in
    if done_closed s1
    then (Panic CloseOfClosedChannel, s1)
    else
      wg_Wait exits {| running := running s1;
                       wg := wg s1;
                       spawned := spawned s1;
                       cancelled := cancelled s1;
                       done_closed := true |}.

(** [StopL2OutputSubmittingIfRunning] *)
Definition StopL2OutputSubmittingIfRunning (exits : nat) (s : LState)
  : Res unit * LState :=
  match StopL2OutputSubmitting exits s with
  | (Err e, s') =>
      if errors_Is e ErrProposerNotRunning then (Ok tt, s') else (Err e, s')
  | other => other
  end.

End Lifecycle.

(** ** A scripted world

    A concrete family of collaborators, used to run the driver on explicit
    inputs: the world is a clock that counts the interactions so far, and a
    script says what each collaborator answers at each instant. *)

Record Script := mkScript {
  sc_caller : nat -> Res Handle;
  sc_version : nat -> Res string;
  sc_abi : nat -> Res ABI;
  sc_next : nat -> Res Z;
  sc_rollup : nat -> Res Handle;
  sc_sync : nat -> Res SyncStatus;
  sc_output : nat -> Z -> Res OutputResponse;
  sc_head : nat -> Res Z;
  sc_bond : nat -> Res Z;
  sc_send : nat -> Res Receipt;
  sc_select : nat -> Sel;
  sc_done : nat -> bool;
  sc_nodesync : nat -> Res unit
}.

Definition at_clock {A} (f : nat -> A) (t : nat) : A * nat := (f t, S t).

Definition script_env (sc : Script) : Env nat :=
  {| e_NewL2OutputOracleCaller := fun _ => at_clock (sc_caller sc);
     e_L2OOVersion := fun _ => at_clock (sc_version sc);
     e_L2OOGetAbi := at_clock (sc_abi sc);
     e_NewDisputeGameFactoryCaller := fun _ => at_clock (sc_caller sc);
     e_DGFVersion := fun _ => at_clock (sc_version sc);
     e_DGFGetAbi := at_clock (sc_abi sc);
     e_NextBlockNumber := fun _ => at_clock (sc_next sc);
     e_RollupClient := at_clock (sc_rollup sc);
     e_SyncStatus := fun _ => at_clock (sc_sync sc);
     e_OutputAtBlock := fun _ block => at_clock (fun t => sc_output sc t block);
     e_BlockNumber := at_clock (sc_head sc);
     e_InitBonds := fun h _ =>
       match h with
       | None => fun t => (Panic NilDereference, S t)
       | Some _ => at_clock (sc_bond sc)
       end;
     e_Pack := fun abi _ _ =>
       match abi with
       | None => Panic NilDereference
       | Some _ => Ok []
       end;
     e_U256Bytes := fun _ => [];
     e_Send := fun _ => at_clock (sc_send sc);
     e_select := at_clock (sc_select sc);
     e_poll_done := at_clock (sc_done sc);
     e_Sleep := fun _ t => S t;
     e_WaitRollupSync := fun _ _ => at_clock (sc_nodesync sc) |}.

Definition start_state : State nat := mkState 0%nat [].

Definition ref1 (n : Z) : L1BlockRef := {| l1_Hash := []; l1_Number := n |}.
Definition ref2 (n : Z) : L2BlockRef := {| l2_Hash := []; l2_Number := n; l2_Time := 0 |}.

(** A sync status with the given L1 head and safe and finalized L2 heads. *)
Definition status_of (head safe finalized : Z) : SyncStatus :=
  {| CurrentL1 := ref1 head;
     HeadL1 := ref1 head;
     SafeL2 := ref2 safe;
     FinalizedL2 := ref2 finalized |}.

(** A well-formed output for block [n] under the given status. *)
Definition output_at (n : Z) (st : SyncStatus) : OutputResponse :=
  {| Version := supportedL2OutputVersion;
     OutputRoot := repeat x01 32;
     BlockRef := ref2 n;
     Status := st |}.

Definition config_of (l2oo dgf : option Address) (allow : bool) : ProposerConfig :=
  {| L2OutputOracleAddr := l2oo;
     DisputeGameFactoryAddr := dgf;
     PollInterval := 6;
     NetworkTimeout := 10;
     AllowNonFinalized := allow;
     DisputeGameType := 0;
     ProposalInterval := 3600;
     OutputRetryInterval := 12;
     WaitNodeSync := false |}.

(** A registry-mode and a factory-mode driver, as construction builds them. *)
Definition registry_driver (allow : bool) : L2OutputSubmitter :=
  {| setup := {| Cfg := config_of (Some 1) None allow |};
     l2ooContract := Some 7%nat;
     l2ooABI := Some 8%nat;
     dgfContract := None;
     dgfABI := None |}.

Definition factory_driver (allow : bool) : L2OutputSubmitter :=
  {| setup := {| Cfg := config_of None (Some 2) allow |};
     l2ooContract := None;
     l2ooABI := None;
     dgfContract := Some 7%nat;
     dgfABI := Some 8%nat |}.

(** The script in which the node reports [node_st], fetched outputs carry
    [out_st], the registry expects block [next], every output is well
    formed, the L1 head is [head] and every transaction is confirmed with
    the given receipt status. *)
Definition scripted (node_st out_st : SyncStatus) (next head rstatus : Z) : Script :=
  {| sc_caller := fun _ => Ok 7%nat;
     sc_version := fun _ => Ok "1.0.0"%string;
     sc_abi := fun _ => Ok 8%nat;
     sc_next := fun _ => Ok next;
     sc_rollup := fun _ => Ok 3%nat;
     sc_sync := fun _ => Ok node_st;
     sc_output := fun _ block => Ok (output_at block out_st);
     sc_head := fun _ => Ok head;
     sc_bond := fun _ => Ok 5;
     sc_send := fun _ => Ok {| rcpt_Status := rstatus; rcpt_TxHash := [] |};
     sc_select := fun _ => SelTick;
     sc_done := fun _ => false;
     sc_nodesync := fun _ => Ok tt |}.

Definition steady (st : SyncStatus) (next head rstatus : Z) : Script :=
  scripted st st next head rstatus.

(** [sc], except that the rollup provider follows [f]. *)
Definition with_rollup (f : nat -> Res Handle) (sc : Script) : Script :=
  {| sc_caller := sc_caller sc;
     sc_version := sc_version sc;
     sc_abi := sc_abi sc;
     sc_next := sc_next sc;
     sc_rollup := f;
     sc_sync := sc_sync sc;
     sc_output := sc_output sc;
     sc_head := sc_head sc;
     sc_bond := sc_bond sc;
     sc_send := sc_send sc;
     sc_select := sc_select sc;
     sc_done := sc_done sc;
     sc_nodesync := sc_nodesync sc |}.

(** [sc], except that the rollup client answers a fetch with [o] whatever
    block is asked for. *)
Definition with_output (o : OutputResponse) (sc : Script) : Script :=
  {| sc_caller := sc_caller sc;
     sc_version := sc_version sc;
     sc_abi := sc_abi sc;
     sc_next := sc_next sc;
     sc_rollup := sc_rollup sc;
     sc_sync := sc_sync sc;
     sc_output := fun _ _ => Ok o;
     sc_head := sc_head sc;
     sc_bond := sc_bond sc;
     sc_send := sc_send sc;
     sc_select := sc_select sc;
     sc_done := sc_done sc;
     sc_nodesync := sc_nodesync sc |}.

(** The rollup provider is unreachable before instant [k]. *)
Definition down_until (k : nat) : nat -> Res Handle :=
  fun t => if (t <? k)%nat then Err (ErrCollaborator 1) else Ok 3%nat.

(** The status of the specification's examples: finalized head 100, safe
    head 105, with L1 head 10. *)
Definition st_example : SyncStatus := status_of 10 105 100.

(** An output of version [01 00 ... 00] for block 100. *)
Definition bad_version : OutputResponse :=
  {| Version := x01 :: repeat x00 31;
     OutputRoot := repeat x01 32;
     BlockRef := ref2 100;
     Status := st_example |}.

(** A configuration with both addresses set, and the driver construction
    returns for it. *)
Definition both_setup : DriverSetup := {| Cfg := config_of (Some 1) (Some 2) false |}.

Definition both_driver : L2OutputSubmitter :=
  {| setup := both_setup;
     l2ooContract := Some 7%nat;
     l2ooABI := Some 8%nat;
     dgfContract := None;
     dgfABI := None |}.

(** A world where the registry answers a block number beyond 64 bits. *)
Definition overflow_world : Env nat := script_env (steady st_example (2 ^ 64 + 50) 12 1).

(** A world where the rollup provider is unreachable for a while. *)
Definition flaky_world : Env nat :=
  script_env (with_rollup (down_until 7) (steady st_example 100 12 1)).

(** ** Vocabulary of the statements *)

(** The eligibility gate in the words of the specification: the output is
    at or below the finalized head, or non-finalized proposals are allowed
    and it is at or below the safe head. *)
Definition eligible (allow : bool) (o : OutputResponse) : Prop :=
  l2_Number (BlockRef o) <= l2_Number (FinalizedL2 (Status o))
  \/ (allow = true /\ l2_Number (BlockRef o) <= l2_Number (SafeL2 (Status o))).

(** The boundary block of a sync status. *)
Definition boundary (allow : bool) (st : SyncStatus) : Z :=
  if allow then l2_Number (SafeL2 st) else l2_Number (FinalizedL2 st).

Definition is_output_fetch (ev : Event) : bool :=
  match ev with EvOutputAtBlock _ _ => true | _ => false end.

Definition is_connection (ev : Event) : bool :=
  match ev with
  | EvNewL2OOCaller _ | EvL2OOVersion _ | EvL2OOGetAbi
  | EvNewDGFCaller _ | EvDGFVersion _ | EvDGFGetAbi => true
  | _ => false
  end.

Definition is_factory_connection (ev : Event) : bool :=
  match ev with
  | EvNewDGFCaller _ | EvDGFVersion _ | EvDGFGetAbi => true
  | _ => false
  end.

Definition is_metric (ev : Event) : bool :=
  match ev with EvRecordL2BlocksProposed _ => true | _ => false end.

Definition is_sleep (ev : Event) : bool :=
  match ev with EvSleep _ => true | _ => false end.

Definition is_poll (ev : Event) : bool :=
  match ev with EvPollDone _ => true | _ => false end.

Definition is_send (ev : Event) : bool :=
  match ev with EvSend _ _ => true | _ => false end.

(** Every event except the metric. *)
Definition not_metric (ev : Event) : bool := negb (is_metric ev).

(** The kinds of events the L1-head wait produces. *)
Definition wait_event (ev : Event) : bool :=
  match ev with
  | EvLog _ _ | EvSelect _ | EvBlockNumber _ => true
  | _ => false
  end.

(** The kinds of events an output fetch produces. *)
Definition fetch_event (ev : Event) : bool :=
  match ev with
  | EvRollupClient | EvSyncStatus _ | EvOutputAtBlock _ _ => true
  | _ => false
  end.

(** The kinds of events the retry loop of [loopDGF] produces; its sleeps
    last [d]. *)
Definition retry_event (d : Duration) (ev : Event) : bool :=
  match ev with
  | EvRollupClient | EvSyncStatus _ | EvOutputAtBlock _ _ => true
  | EvPollDone _ => true
  | EvLog LvlWarn LogDGFOutputError => true
  | EvSleep d' => d' =? d
  | _ => false
  end.

(** How many events of a kind a trace holds. *)
Definition count (p : Event -> bool) (tr : list Event) : nat :=
  List.length (filter p tr).

(** The L1 heads a trace observed through [Txmgr.BlockNumber]. *)
Fixpoint heads (tr : list Event) : list Z :=
  match tr with
  | [] => []
  | EvBlockNumber (Ok h) :: tr' => h :: heads tr'
  | _ :: tr' => heads tr'
  end.

Definition is_Ok {A} (r : Res A) : bool :=
  match r with Ok _ => true | _ => false end.

Section Runs.

Context {W : Type} (env : Env W).

(** [emitsOnly p m]: whatever [m] does, it only adds events of kind [p] to
    the trace. *)
Definition emitsOnly {A} (p : Event -> bool) (m : M W A) : Prop :=
  forall s, exists evs,
    trace (snd (m s)) = trace s ++ evs /\ forallb p evs = true.

(** [failsThenSucceeds l n s o s']: from [s], the retry loop of [loopDGF]
    sees [done] open and a failing fetch [n] times in a row (logging and
    sleeping after each), then sees [done] open and fetches [o], ending in
    [s']. *)
Inductive failsThenSucceeds (l : L2OutputSubmitter)
  : nat -> State W -> OutputResponse -> State W -> Prop :=
| fts_success s s1 o s2 :
    pollDone env s = (Ok false, s1) ->
    FetchDGFOutput env l s1 = (Ok o, s2) ->
    failsThenSucceeds l 0 s o s2
| fts_failure n s s1 e s2 o s' :
    pollDone env s = (Ok false, s1) ->
    FetchDGFOutput env l s1 = (Err e, s2) ->
    failsThenSucceeds l n
      (snd (sleep env (OutputRetryInterval (cfg l))
              (snd (emit (EvLog LvlWarn LogDGFOutputError) s2)))) o s' ->
    failsThenSucceeds l (S n) s o s'.

End Runs.

(** ** Vocabulary of the further statements *)

Definition is_cancel (ev : Event) : bool :=
  match ev with EvCancel => true | _ => false end.

Definition is_wgdone (ev : Event) : bool :=
  match ev with EvWgDone => true | _ => false end.

Definition is_registry_query (ev : Event) : bool :=
  match ev with EvNextBlockNumber _ _ => true | _ => false end.

Definition not_registry_query (ev : Event) : bool := negb (is_registry_query ev).

(** The kinds of events [sendTransaction] produces. *)
Definition send_event (ev : Event) : bool :=
  match ev with
  | EvLog _ _ | EvSelect _ | EvBlockNumber _ | EvInitBonds _ _ | EvSend _ _ => true
  | _ => false
  end.

(** The kinds of events [proposeOutput] produces. *)
Definition propose_event (ev : Event) : bool :=
  send_event ev || is_metric ev.

(** The kinds of events [FetchL2OOOutput] produces. *)
Definition registry_fetch_event (ev : Event) : bool :=
  match ev with
  | EvNextBlockNumber _ _ | EvRollupClient | EvSyncStatus _ | EvOutputAtBlock _ _
  | EvLog _ _ => true
  | _ => false
  end.

(** The kinds of events the two loops produce; the sleeps of [loopDGF]
    last [d]. *)
Definition registry_loop_event (ev : Event) : bool :=
  propose_event ev || registry_fetch_event ev || is_poll ev.

Definition factory_loop_event (d : Duration) (ev : Event) : bool :=
  propose_event ev || retry_event d ev.

(** Where [sendTransaction] sends the proposal. *)
Definition destination (l : L2OutputSubmitter) : option Address :=
  match DisputeGameFactoryAddr (cfg l) with
  | Some dgf => Some dgf
  | None => L2OutputOracleAddr (cfg l)
  end.

(** The last event of a trace. *)
Definition endsWith (ev : Event) (tr : list Event) : Prop :=
  exists tr0, tr = tr0 ++ [ev].

(** The kinds of events the worker produces before its deferred
    [wg.Done()]. *)
Definition worker_event (d : Duration) (ev : Event) : bool :=
  registry_loop_event ev || factory_loop_event d ev
  || match ev with EvWaitRollupSync _ => true | _ => false end.

(** [extends p n s s']: the run from [s] to [s'] added only events of kind
    [p], among them at most [n] sends, and no more metric records than
    sends. *)
Definition extends {W} (p : Event -> bool) (n : nat) (s s' : State W) : Prop :=
  exists evs,
    trace s' = trace s ++ evs
    /\ forallb p evs = true
    /\ (count is_send evs <= n)%nat
    /\ (count is_metric evs <= count is_send evs)%nat.

(** [bounded p n m]: every run of [m] is such an extension. *)
Definition bounded {W A} (p : Event -> bool) (n : nat) (m : M W A) : Prop :=
  forall s, extends p n s (snd (m s)).

(** Calls of the lifecycle methods, and the worker's exit, in the order
    the mutex serialises them.  [run] is [None] when a call panics or
    never returns, and when a worker that does not exist would exit. *)
Inductive Op :=
| OpStart
| OpStop (exits : nat)
| OpStopIfRunning (exits : nat)
| OpWorkerDone.

Definition runOp (op : Op) (s : Lifecycle.LState) : option Lifecycle.LState :=
  match op with
  | OpStart => Some (snd (Lifecycle.StartL2OutputSubmitting s))
  | OpStop exits =>
      match Lifecycle.StopL2OutputSubmitting exits s with
      | (Ok _, s') | (Err _, s') => Some s'
      | _ => None
      end
  | OpStopIfRunning exits =>
      match Lifecycle.StopL2OutputSubmittingIfRunning exits s with
      | (Ok _, s') | (Err _, s') => Some s'
      | _ => None
      end
  | OpWorkerDone =>
      match Lifecycle.wg s with
      | O => None
      | S _ => Some (Lifecycle.workerDone s)
      end
  end.

Fixpoint run (ops : list Op) (s : Lifecycle.LState) : option Lifecycle.LState :=
  match ops with
  | [] => Some s
  | op :: ops' =>
      match runOp op s with
      | Some s' => run ops' s'
      | None => None
      end
  end.

(** A factory-mode configuration, and the driver construction returns. *)
Definition factory_setup : DriverSetup := {| Cfg := config_of None (Some 2) false |}.

Definition registry_setup : DriverSetup := {| Cfg := config_of (Some 1) None false |}.

(** [sc], except that creating a contract caller follows [f]. *)
Definition with_caller (f : nat -> Res Handle) (sc : Script) : Script :=
  {| sc_caller := f;
     sc_version := sc_version sc;
     sc_abi := sc_abi sc;
     sc_next := sc_next sc;
     sc_rollup := sc_rollup sc;
     sc_sync := sc_sync sc;
     sc_output := sc_output sc;
     sc_head := sc_head sc;
     sc_bond := sc_bond sc;
     sc_send := sc_send sc;
     sc_select := sc_select sc;
     sc_done := sc_done sc;
     sc_nodesync := sc_nodesync sc |}.

(** [sc], except that the bond lookup follows [f]. *)
Definition with_bond (f : nat -> Res Z) (sc : Script) : Script :=
  {| sc_caller := sc_caller sc;
     sc_version := sc_version sc;
     sc_abi := sc_abi sc;
     sc_next := sc_next sc;
     sc_rollup := sc_rollup sc;
     sc_sync := sc_sync sc;
     sc_output := sc_output sc;
     sc_head := sc_head sc;
     sc_bond := f;
     sc_send := sc_send sc;
     sc_select := sc_select sc;
     sc_done := sc_done sc;
     sc_nodesync := sc_nodesync sc |}.

(** [sc], except that [select] and the poll of [done] follow [f] and [g]. *)
Definition with_shutdown (f : nat -> Sel) (g : nat -> bool) (sc : Script) : Script :=
  {| sc_caller := sc_caller sc;
     sc_version := sc_version sc;
     sc_abi := sc_abi sc;
     sc_next := sc_next sc;
     sc_rollup := sc_rollup sc;
     sc_sync := sc_sync sc;
     sc_output := sc_output sc;
     sc_head := sc_head sc;
     sc_bond := sc_bond sc;
     sc_send := sc_send sc;
     sc_select := f;
     sc_done := g;
     sc_nodesync := sc_nodesync sc |}.

(** The invariant of the lifecycle: at most one worker is alive, none
    when the driver is not running, the context is cancelled exactly when
    [done] is closed, and every live worker was started. *)
Definition singleWorker (s : Lifecycle.LState) : Prop :=
  (Lifecycle.wg s <= 1)%nat
  /\ (Lifecycle.running s = false -> Lifecycle.wg s = 0%nat)
  /\ Lifecycle.cancelled s = Lifecycle.done_closed s
  /\ (Lifecycle.wg s <= Lifecycle.spawned s)%nat.

(** Scripted worlds for the further statements: one where everything
    works, one where no contract caller can be created, one where shutdown
    has been signalled, and one where the bond lookup fails. *)
Definition quiet_world : Env nat := script_env (steady st_example 100 12 1).

Definition broken_caller_world : Env nat :=
  script_env (with_caller (fun _ => Err (ErrCollaborator 2)) (steady st_example 100 12 1)).

Definition shutdown_world : Env nat :=
  script_env (with_shutdown (fun _ => SelDone) (fun _ => true) (steady st_example 100 11 1)).

Definition no_bond_world : Env nat :=
  script_env (with_bond (fun _ => Err (ErrCollaborator 3)) (steady st_example 100 12 1)).

Definition example_output : OutputResponse := output_at 100 st_example.

(** A world where the registry expects block 101 while the finalized
    head is 100, and a world where the node never gets in sync. *)
Definition early_world : Env nat := script_env (steady st_example 101 12 1).

Definition with_nodesync (f : nat -> Res unit) (sc : Script) : Script :=
  {| sc_caller := sc_caller sc;
     sc_version := sc_version sc;
     sc_abi := sc_abi sc;
     sc_next := sc_next sc;
     sc_rollup := sc_rollup sc;
     sc_sync := sc_sync sc;
     sc_output := sc_output sc;
     sc_head := sc_head sc;
     sc_bond := sc_bond sc;
     sc_send := sc_send sc;
     sc_select := sc_select sc;
     sc_done := sc_done sc;
     sc_nodesync := f |}.

Definition no_sync_world : Env nat :=
  script_env (with_nodesync (fun _ => Err (ErrCollaborator 4)) (steady st_example 100 12 1)).

(** A registry-mode driver whose poll interval is zero. *)
Definition stalled_driver : L2OutputSubmitter :=
  {| setup := {| Cfg := {| L2OutputOracleAddr := Some 1;
                           DisputeGameFactoryAddr := None;
                           PollInterval := 0;
                           NetworkTimeout := 10;
                           AllowNonFinalized := false;
                           DisputeGameType := 0;
                           ProposalInterval := 3600;
                           OutputRetryInterval := 12;
                           WaitNodeSync := false |} |};
     l2ooContract := Some 7%nat;
     l2ooABI := Some 8%nat;
     dgfContract := None;
     dgfABI := None |}.

(** A registry-mode driver configured to wait for the node to sync. *)
Definition syncing_driver : L2OutputSubmitter :=
  {| setup := {| Cfg := {| L2OutputOracleAddr := Some 1;
                           DisputeGameFactoryAddr := None;
                           PollInterval := 6;
                           NetworkTimeout := 10;
                           AllowNonFinalized := false;
                           DisputeGameType := 0;
                           ProposalInterval := 3600;
                           OutputRetryInterval := 12;
                           WaitNodeSync := true |} |};
     l2ooContract := Some 7%nat;
     l2ooABI := Some 8%nat;
     dgfContract := None;
     dgfABI := None |}.

(** ** Facts about the building blocks *)

Lemma bytes_eqb_eq (a b : list byte) : bytes_eqb a b = true <-> a = b.
Proof.
  revert b; induction a as [|x a IH]; intros [|y b]; simpl; split;
    try discriminate; try reflexivity.
  - intros H. apply andb_true_iff in H as [Hx Hab].
    apply Byte.byte_dec_bl in Hx. apply IH in Hab. now subst.
  - intros H. injection H as -> ->. apply andb_true_iff. split.
    + now apply Byte.byte_dec_lb.
    + now apply IH.
Qed.

Lemma count_app p (a b : list Event) : count p (a ++ b) = (count p a + count p b)%nat.
Proof. unfold count. now rewrite filter_app, List.length_app. Qed.

(** A registry answer that fits in 64 bits is read as it is. *)
Lemma big_Uint64_small (x : Z) : 0 <= x < two64 -> big_Uint64 x = x.
Proof. intros H. unfold big_Uint64, wrap64. now apply Z.mod_small. Qed.

Lemma notReady_eligible l o : notReady l o = false <-> eligible (AllowNonFinalized (cfg l)) o.
Proof.
  unfold notReady, eligible.
  rewrite andb_false_iff, orb_false_iff, negb_false_iff, !Z.gtb_ltb, !Z.ltb_ge.
  tauto.
Qed.

Section Facts.

Context {W : Type} (env : Env W).

Local Open Scope driver_scope.

(** Run one step of monadic driver code. *)
Ltac step :=
  unfold bind, wrapErr, onErr, call, emit, ret, fail, panic, cancel; simpl.

(** *** Output fetcher *)

Lemma FetchCurrentBlockNumber_run l s h w1 st w2
  (Hrc : e_RollupClient env (world s) = (Ok h, w1))
  (Hst : e_SyncStatus env h w1 = (Ok st, w2)) :
  FetchCurrentBlockNumber env l s
  = (Ok (boundary (AllowNonFinalized (cfg l)) st),
     mkState w2 (trace s ++ [EvRollupClient; EvSyncStatus (Ok st)])).
Proof.
  unfold FetchCurrentBlockNumber, boundary. step. rewrite Hrc. simpl. rewrite Hst. simpl.
  rewrite <- app_assoc. simpl. now destruct (AllowNonFinalized (cfg l)).
Qed.

(** C8: whatever sync status the rollup client returns,
    [FetchCurrentBlockNumber] returns its safe-head number when
    [AllowNonFinalized] is set and its finalized-head number otherwise. *)
Theorem FetchCurrentBlockNumber_boundary l s h w1 st w2
  (Hrc : e_RollupClient env (world s) = (Ok h, w1))
  (Hst : e_SyncStatus env h w1 = (Ok st, w2)) :
  (AllowNonFinalized (cfg l) = true ->
   fst (FetchCurrentBlockNumber env l s) = Ok (l2_Number (SafeL2 st)))
  /\ (AllowNonFinalized (cfg l) = false ->
      fst (FetchCurrentBlockNumber env l s) = Ok (l2_Number (FinalizedL2 st))).
Proof.
  rewrite (FetchCurrentBlockNumber_run l s h w1 st w2 Hrc Hst). unfold boundary.
  split; intros ->; reflexivity.
Qed.

(** C4: [FetchOutput] returns an output only if its version is the
    supported one and its block number is the requested one; when the
    rollup client answers with another version the call fails with the
    unsupported-version error, when the version is right and the block
    number differs it fails with the block-mismatch error, and in neither
    case is an output returned. *)
Theorem FetchOutput_validates :
  (forall l block s o s',
      FetchOutput env l block s = (Ok o, s') ->
      Version o = supportedL2OutputVersion /\ l2_Number (BlockRef o) = block)
  /\
  (forall l block s h w1 o w2,
      e_RollupClient env (world s) = (Ok h, w1) ->
      e_OutputAtBlock env h block w1 = (Ok o, w2) ->
      let r := fst (FetchOutput env l block s) in
      (Version o <> supportedL2OutputVersion ->
       r = Err (ErrUnsupportedVersion (Version o) supportedL2OutputVersion))
      /\ (Version o = supportedL2OutputVersion ->
          l2_Number (BlockRef o) <> block ->
          r = Err (ErrBlockMismatch (l2_Number (BlockRef o)) block))
      /\ (Version o = supportedL2OutputVersion ->
          l2_Number (BlockRef o) = block ->
          r = Ok o)
      /\ ((Version o <> supportedL2OutputVersion \/ l2_Number (BlockRef o) <> block) ->
          is_Ok r = false)).
Proof.
  split.
  - intros l block s o s'. unfold FetchOutput. step.
    destruct (e_RollupClient env (world s)) as [[h| | |] w1]; simpl; try discriminate.
    destruct (e_OutputAtBlock env h block w1) as [[o'| | |] w2]; simpl; try discriminate.
    destruct (bytes_eqb (Version o') supportedL2OutputVersion) eqn:Ev; simpl;
      try discriminate.
    destruct (l2_Number (BlockRef o') =? block) eqn:En; simpl; try discriminate.
    intros H. injection H as <- _.
    split; [now apply bytes_eqb_eq | now apply Z.eqb_eq].
  - intros l block s h w1 o w2 Hrc Hout r. subst r.
    unfold FetchOutput. step. rewrite Hrc. simpl. rewrite Hout. simpl.
    destruct (bytes_eqb (Version o) supportedL2OutputVersion) eqn:Ev; simpl.
    + apply bytes_eqb_eq in Ev.
      destruct (l2_Number (BlockRef o) =? block) eqn:En; simpl.
      * apply Z.eqb_eq in En. repeat split; intros; try congruence.
        destruct H; congruence.
      * apply Z.eqb_neq in En. repeat split; intros; congruence.
    + assert (Version o <> supportedL2OutputVersion) as Hne.
      { intros Heq. apply bytes_eqb_eq in Heq. congruence. }
      repeat split; intros; congruence.
Qed.

(** *** Direct-Registry decision *)

(** C5, as the code has it: in registry mode, when the block number the
    registry expects next fits in a [uint64] and the boundary block (safe
    or finalized head, per configuration) is below it, [FetchL2OOOutput]
    returns [(nil, false, nil)] and fetches no output: after the two
    queries it only logs. *)
Theorem FetchL2OOOutput_too_early l c s nextBig w1 h w2 st w3
  (Hmode : l2ooContract l = Some c)
  (Hnext : e_NextBlockNumber env c (world s) = (Ok nextBig, w1))
  (Hrange : 0 <= nextBig < two64)
  (Hrc : e_RollupClient env w1 = (Ok h, w2))
  (Hst : e_SyncStatus env h w2 = (Ok st, w3))
  (Hlt : boundary (AllowNonFinalized (cfg l)) st < nextBig) :
  let evs := [EvNextBlockNumber c (Ok nextBig); EvRollupClient;
              EvSyncStatus (Ok st); EvLog LvlDebug LogIntervalNotElapsed] in
  FetchL2OOOutput env l s = (Ok (None, false), mkState w3 (trace s ++ evs))
  /\ count is_output_fetch evs = 0%nat.
Proof.
  split; [|reflexivity].
  unfold FetchL2OOOutput. rewrite Hmode.
  unfold bind at 1. unfold wrapErr, call. rewrite Hnext. simpl.
  unfold bind at 1.
  erewrite FetchCurrentBlockNumber_run; [|exact Hrc|exact Hst]. simpl.
  rewrite (big_Uint64_small nextBig Hrange).
  replace (_ <? _) with true by (symmetry; apply Z.ltb_lt; exact Hlt).
  step. now rewrite <- !app_assoc.
Qed.

(** C1: in registry mode, once an output has been fetched,
    [FetchL2OOOutput] returns it without error, and [shouldPropose] is
    true exactly when the output's block is at or below the finalized head
    of its status, or non-finalized proposals are allowed and it is at or
    below the safe head; otherwise [shouldPropose] is false. *)
Theorem FetchL2OOOutput_gate :
  (forall l c s nextBig w1 cur s2 o s3,
      l2ooContract l = Some c ->
      e_NextBlockNumber env c (world s) = (Ok nextBig, w1) ->
      FetchCurrentBlockNumber env l
        (mkState w1 (trace s ++ [EvNextBlockNumber c (Ok nextBig)])) = (Ok cur, s2) ->
      big_Uint64 nextBig <= cur ->
      FetchOutput env l (big_Uint64 nextBig) s2 = (Ok o, s3) ->
      exists b s4,
        FetchL2OOOutput env l s = (Ok (Some o, b), s4)
        /\ (b = true <-> eligible (AllowNonFinalized (cfg l)) o))
  /\
  (forall l s out b s',
      FetchL2OOOutput env l s = (Ok (out, b), s') ->
      (b = true <-> exists o, out = Some o /\ eligible (AllowNonFinalized (cfg l)) o)).
Proof.
  split.
  - intros l c s nextBig w1 cur s2 o s3 Hmode Hnext Hcur Hle Hout.
    unfold FetchL2OOOutput. rewrite Hmode.
    unfold bind at 1. unfold wrapErr, call. rewrite Hnext. simpl.
    unfold bind at 1. rewrite Hcur.
    replace (cur <? big_Uint64 nextBig) with false by (symmetry; apply Z.ltb_ge; exact Hle).
    unfold bind at 1. unfold wrapErr. rewrite Hout.
    destruct (notReady l o) eqn:Hn.
    + eexists false, _. split; [reflexivity|].
      split; [discriminate|]. intros He. apply notReady_eligible in He. congruence.
    + eexists true, _. split; [reflexivity|].
      split; [intros _; now apply notReady_eligible | reflexivity].
  - intros l s out b s'. unfold FetchL2OOOutput.
    destruct (l2ooContract l) as [c|]; [|discriminate].
    unfold bind at 1. unfold wrapErr, call.
    destruct (e_NextBlockNumber env c (world s)) as [[nextBig| | |] w1]; simpl;
      try discriminate.
    unfold bind at 1.
    destruct (FetchCurrentBlockNumber env l _) as [[cur| | |] s2]; try discriminate.
    destruct (cur <? big_Uint64 nextBig).
    + step. intros H. injection H as <- <- _.
      split; [discriminate|]. intros (o & Ho & _). discriminate.
    + unfold bind at 1. unfold wrapErr.
      destruct (FetchOutput env l (big_Uint64 nextBig) s2) as [[o| | |] s3];
        try discriminate.
      destruct (notReady l o) eqn:Hn; step; intros H; injection H as <- <- _.
      * split; [discriminate|]. intros (o' & Ho & He). injection Ho as <-.
        apply notReady_eligible in He. congruence.
      * split; [|reflexivity]. intros _. exists o. split; [reflexivity|].
        now apply notReady_eligible.
Qed.

(** *** Construction *)

(** C9: when neither the registry address nor the factory address is
    configured, construction fails with the configuration error; no
    collaborator is consulted (the world is untouched) and the trace only
    shows the context being created and cancelled, so no contract
    connection and no version query happens. *)
Theorem NewL2OutputSubmitter_neither setup s
  (Hl2oo : L2OutputOracleAddr (Cfg setup) = None)
  (Hdgf : DisputeGameFactoryAddr (Cfg setup) = None) :
  NewL2OutputSubmitter env setup s
  = (Err ErrNeitherAddress, mkState (world s) (trace s ++ [EvWithCancel; EvCancel]))
  /\ count is_connection [EvWithCancel; EvCancel] = 0%nat.
Proof.
  split; [|reflexivity].
  unfold NewL2OutputSubmitter, selectMode. rewrite Hl2oo, Hdgf. step.
  now rewrite <- app_assoc.
Qed.

(** *** What driver code can add to the trace *)

Create HintDb emits discriminated.

Lemma emitsOnly_ret {A} p (a : A) : emitsOnly p (ret (W:=W) a).
Proof. intros s. exists []. simpl. now rewrite app_nil_r. Qed.

Lemma emitsOnly_pure {A} p (r : Res A) : emitsOnly p (fun s : State W => (r, s)).
Proof. intros s. exists []. simpl. now rewrite app_nil_r. Qed.

Lemma emitsOnly_fail {A} p e : emitsOnly p (fail (W:=W) (A:=A) e).
Proof. apply emitsOnly_pure. Qed.

Lemma emitsOnly_panic {A} p k : emitsOnly p (panic (W:=W) (A:=A) k).
Proof. apply emitsOnly_pure. Qed.

Lemma emitsOnly_emit p ev : p ev = true -> emitsOnly p (emit (W:=W) ev).
Proof. intros H s. exists [ev]. simpl. now rewrite H. Qed.

Lemma emitsOnly_call {A} p (ev : Res A -> Event) (f : W -> Res A * W) :
  (forall r, p (ev r) = true) -> emitsOnly p (call ev f).
Proof.
  intros H s. unfold call. destruct (f (world s)) as [r w'].
  exists [ev r]. simpl. now rewrite H.
Qed.

Lemma emitsOnly_bind {A B} p (m : M W A) (k : A -> M W B) :
  emitsOnly p m -> (forall a, emitsOnly p (k a)) -> emitsOnly p (bind m k).
Proof.
  intros Hm Hk s. unfold bind. destruct (Hm s) as (evs & Ht & Hp).
  destruct (m s) as [[a| | |] s1]; simpl in *; try (now exists evs).
  destruct (Hk a s1) as (evs' & Ht' & Hp').
  exists (evs ++ evs'). rewrite Ht', Ht, app_assoc, forallb_app, Hp, Hp'. now split.
Qed.

Lemma emitsOnly_wrapErr {A} p w (m : M W A) : emitsOnly p m -> emitsOnly p (wrapErr w m).
Proof.
  intros Hm s. unfold wrapErr. destruct (Hm s) as (evs & Ht & Hp).
  destruct (m s) as [[a| | |] s1]; simpl in *; now exists evs.
Qed.

Lemma emitsOnly_onErr {A} p h (m : M W A) :
  emitsOnly p h -> emitsOnly p m -> emitsOnly p (onErr h m).
Proof.
  intros Hh Hm s. unfold onErr. destruct (Hm s) as (evs & Ht & Hp).
  destruct (m s) as [[a| | |] s1]; simpl in *; try (now exists evs).
  destruct (Hh s1) as (evs' & Ht' & Hp').
  exists (evs ++ evs'). rewrite Ht', Ht, app_assoc, forallb_app, Hp, Hp'. now split.
Qed.

Lemma emitsOnly_sleep p d : p (EvSleep d) = true -> emitsOnly p (sleep env d).
Proof. intros H s. exists [EvSleep d]. simpl. now rewrite H. Qed.

Lemma emitsOnly_select p : (forall sel, p (EvSelect sel) = true) -> emitsOnly p (select env).
Proof.
  intros H s. unfold select. destruct (e_select env (world s)) as [sel w'].
  exists [EvSelect sel]. simpl. now rewrite H.
Qed.

Lemma emitsOnly_pollDone p : (forall b, p (EvPollDone b) = true) -> emitsOnly p (pollDone env).
Proof.
  intros H s. unfold pollDone. destruct (e_poll_done env (world s)) as [b w'].
  exists [EvPollDone b]. simpl. now rewrite H.
Qed.

#[local] Hint Resolve emitsOnly_ret emitsOnly_pure emitsOnly_fail emitsOnly_panic
  emitsOnly_emit emitsOnly_call emitsOnly_bind emitsOnly_wrapErr emitsOnly_onErr
  emitsOnly_sleep emitsOnly_select emitsOnly_pollDone : emits.

(** Events of a kind [q] are not added by code that only emits other kinds. *)
Lemma emitsOnly_count {A} (p q : Event -> bool) (m : M W A) s :
  emitsOnly p m -> (forall ev, p ev = true -> q ev = false) ->
  count q (trace (snd (m s))) = count q (trace s).
Proof.
  intros Hm Hpq. destruct (Hm s) as (evs & -> & Hp).
  rewrite count_app. enough (count q evs = 0%nat) by lia.
  unfold count. induction evs as [|ev evs IH]; simpl in *; [reflexivity|].
  apply andb_true_iff in Hp as [Hev Hp]. rewrite (Hpq ev Hev). now apply IH.
Qed.

Lemma emitsOnly_weaken {A} (p q : Event -> bool) (m : M W A) :
  (forall ev, p ev = true -> q ev = true) -> emitsOnly p m -> emitsOnly q m.
Proof.
  intros Hpq Hm s. destruct (Hm s) as (evs & Ht & Hp). exists evs. split; [exact Ht|].
  rewrite forallb_forall in *. auto.
Qed.

Lemma waitLoop_emits fuel blockNum l1head :
  emitsOnly wait_event (waitLoop env fuel blockNum l1head).
Proof.
  revert l1head. induction fuel as [|fuel IH]; intros l1head; simpl;
    destruct (l1head <=? blockNum); auto with emits.
  apply emitsOnly_bind; [auto with emits|]. intros _ s.
  destruct (e_select env (world s)) as [[|] w'] eqn:Hsel.
  - set (s1 := mkState w' (trace s ++ [EvSelect SelTick])).
    assert (emitsOnly wait_event
              (bind (call EvBlockNumber (e_BlockNumber env))
                    (fun h => waitLoop env fuel blockNum h))) as Hk
        by (apply emitsOnly_bind; auto with emits).
    destruct (Hk s1) as (evs & Ht & Hp).
    exists (EvSelect SelTick :: evs). split; [|exact Hp].
    rewrite Ht. subst s1. simpl. now rewrite <- app_assoc.
  - exists [EvSelect SelDone]. now split.
Qed.

Lemma emitsOnly_newTicker p d : emitsOnly p (newTicker (W:=W) d).
Proof. unfold newTicker. destruct (d <=? 0); auto with emits. Qed.

Lemma waitForL1Head_emits fuel l blockNum :
  emitsOnly wait_event (waitForL1Head env fuel l blockNum).
Proof.
  unfold waitForL1Head. apply emitsOnly_bind; [apply emitsOnly_newTicker|]. intros _.
  apply emitsOnly_bind; [auto with emits|].
  intros h. apply waitLoop_emits.
Qed.

Lemma wait_event_not_metric ev : wait_event ev = true -> not_metric ev = true.
Proof. now destruct ev. Qed.

Lemma dispatch_emits l o : emitsOnly not_metric (dispatch env l o).
Proof.
  unfold dispatch, ProposeL2OutputDGFTxData, ProposeL2OutputTxData.
  destruct (DisputeGameFactoryAddr (cfg l)); auto 10 with emits.
Qed.

Lemma sendTransaction_emits fuel l o : emitsOnly not_metric (sendTransaction env fuel l o).
Proof.
  unfold sendTransaction.
  apply emitsOnly_bind;
    [apply (emitsOnly_weaken _ _ _ wait_event_not_metric), waitForL1Head_emits|].
  intros _.
  apply emitsOnly_bind; [auto with emits|]. intros _.
  apply emitsOnly_bind; [apply dispatch_emits|]. intros r.
  destruct (rcpt_Status r =? ReceiptStatusFailed); auto with emits.
Qed.

(** *** Dispatch and the metric *)

Lemma sendTransaction_after_wait fuel l o s s1 :
  waitForL1Head env fuel l (wrap64 (l1_Number (HeadL1 (Status o)) + 1)) s = (Ok tt, s1) ->
  sendTransaction env fuel l o s
  = (receipt <- dispatch env l o ;;
     if rcpt_Status receipt =? ReceiptStatusFailed
     then emit (EvLog LvlError LogReverted)
     else emit (EvLog LvlInfo LogPublished))
      (mkState (world s1) (trace s1 ++ [EvLog LvlInfo LogProposing])).
Proof.
  intros Hw. unfold sendTransaction. unfold bind at 1. rewrite Hw.
  unfold bind at 1. reflexivity.
Qed.

Lemma sendTransaction_wait_failed fuel l o s r s1 :
  waitForL1Head env fuel l (wrap64 (l1_Number (HeadL1 (Status o)) + 1)) s = (r, s1) ->
  is_Ok r = false ->
  sendTransaction env fuel l o s = (r, s1).
Proof.
  intros Hw Hr. unfold sendTransaction. unfold bind at 1. rewrite Hw.
  destruct r; try reflexivity. discriminate.
Qed.

(** C10: [proposeOutput] records the proposed-blocks metric exactly when
    [sendTransaction] returns without error: the number of metric events
    grows by one in that case and not at all otherwise.  A confirmed
    receipt with reverted status is such a case; a failed L1-head wait and
    a failed dispatch are not. *)
Theorem proposeOutput_metric :
  (forall fuel l o s,
      count is_metric (trace (snd (proposeOutput env fuel l o s)))
      = (count is_metric (trace s)
         + if is_Ok (fst (sendTransaction env fuel l o s)) then 1 else 0)%nat)
  /\
  (forall fuel l o s s1 rcpt s2,
      waitForL1Head env fuel l (wrap64 (l1_Number (HeadL1 (Status o)) + 1)) s = (Ok tt, s1) ->
      dispatch env l o (mkState (world s1) (trace s1 ++ [EvLog LvlInfo LogProposing]))
      = (Ok rcpt, s2) ->
      rcpt_Status rcpt = ReceiptStatusFailed ->
      proposeOutput env fuel l o s
      = (Ok tt, mkState (world s2)
                  (trace s2 ++ [EvLog LvlError LogReverted;
                                EvRecordL2BlocksProposed (BlockRef o)])))
  /\
  (forall fuel l o s e s1,
      waitForL1Head env fuel l (wrap64 (l1_Number (HeadL1 (Status o)) + 1)) s = (Err e, s1) ->
      proposeOutput env fuel l o s
      = (Ok tt, mkState (world s1) (trace s1 ++ [EvLog LvlError LogSendFailed])))
  /\
  (forall fuel l o s s1 e s2,
      waitForL1Head env fuel l (wrap64 (l1_Number (HeadL1 (Status o)) + 1)) s = (Ok tt, s1) ->
      dispatch env l o (mkState (world s1) (trace s1 ++ [EvLog LvlInfo LogProposing]))
      = (Err e, s2) ->
      proposeOutput env fuel l o s
      = (Ok tt, mkState (world s2) (trace s2 ++ [EvLog LvlError LogSendFailed]))).
Proof.
  repeat split.
  - intros fuel l o s. unfold proposeOutput.
    assert (count is_metric (trace (snd (sendTransaction env fuel l o s)))
            = count is_metric (trace s)) as Hc.
    { apply emitsOnly_count with (p := not_metric);
        [apply sendTransaction_emits|].
      intros ev. unfold not_metric. now destruct (is_metric ev). }
    destruct (sendTransaction env fuel l o s) as [[[]| | |] s1]; simpl in *;
      rewrite ?count_app, Hc; unfold count; simpl; lia.
  - intros fuel l o s s1 rcpt s2 Hw Hd Hr. unfold proposeOutput.
    rewrite (sendTransaction_after_wait _ _ _ _ _ Hw). unfold bind. rewrite Hd.
    rewrite Hr. simpl. unfold emit. simpl. now rewrite <- app_assoc.
  - intros fuel l o s e s1 Hw. unfold proposeOutput.
    now rewrite (sendTransaction_wait_failed _ _ _ _ _ _ Hw).
  - intros fuel l o s s1 e s2 Hw Hd. unfold proposeOutput.
    rewrite (sendTransaction_after_wait _ _ _ _ _ Hw). unfold bind. now rewrite Hd.
Qed.

(** C3: when both the registry and the factory address are configured,
    construction takes the registry branch: the driver it returns has the
    registry handle set and the factory handle and ABI [nil].  Yet
    [sendTransaction] on that driver branches on the factory address, so
    that, once the L1-head wait is over, the bond lookup [InitBonds] is
    invoked on the [nil] factory handle; meanwhile the worker runs the
    registry loop. *)
Theorem both_addresses_nil_factory_handle su a1 a2
  (Hl2oo : L2OutputOracleAddr (Cfg su) = Some a1)
  (Hdgf : DisputeGameFactoryAddr (Cfg su) = Some a2) :
  selectMode env su = newL2OOSubmitter env su
  /\
  (forall s c v p w1 w2 w3,
      e_NewL2OutputOracleCaller env a1 (world s) = (Ok c, w1) ->
      e_L2OOVersion env c w1 = (Ok v, w2) ->
      e_L2OOGetAbi env w2 = (Ok p, w3) ->
      fst (NewL2OutputSubmitter env su s)
      = Ok (Some {| setup := su; l2ooContract := Some c; l2ooABI := Some p;
                    dgfContract := None; dgfABI := None |}))
  /\
  (forall s l s',
      NewL2OutputSubmitter env su s = (Ok (Some l), s') ->
      setup l = su
      /\ l2ooContract l <> None
      /\ dgfContract l = None
      /\ count is_factory_connection (trace s') = count is_factory_connection (trace s)
      /\ (forall ticks rf wf t,
             WaitNodeSync (Cfg su) = false ->
             loop env ticks rf wf l t
             = deferred (emit EvWgDone) (loopL2OO env ticks wf l) t)
      /\ (forall fuel o t t1,
             waitForL1Head env fuel l (wrap64 (l1_Number (HeadL1 (Status o)) + 1)) t
             = (Ok tt, t1) ->
             exists evs,
               trace (snd (sendTransaction env fuel l o t))
               = trace t1 ++ [EvLog LvlInfo LogProposing;
                              EvInitBonds None (DisputeGameType (Cfg su))] ++ evs)).
Proof.
  split; [unfold selectMode; now rewrite Hl2oo|]. split.
  - intros s c v p w1 w2 w3 Hc Hv Hp.
    unfold NewL2OutputSubmitter, selectMode, newL2OOSubmitter. rewrite Hl2oo.
    step. rewrite Hc. simpl. rewrite Hv. simpl. rewrite Hp. reflexivity.
  - intros s l s'.
    unfold NewL2OutputSubmitter, selectMode, newL2OOSubmitter. rewrite Hl2oo.
    step.
    destruct (e_NewL2OutputOracleCaller env a1 (world s)) as [[c| | |] w1]; simpl;
      try discriminate.
    destruct (e_L2OOVersion env c w1) as [[v| | |] w2]; simpl; try discriminate.
    destruct (e_L2OOGetAbi env w2) as [[p| | |] w3]; simpl; try discriminate.
    intros H. injection H as <- <-. simpl.
    split; [reflexivity|]. split; [discriminate|]. split; [reflexivity|]. split.
    { rewrite !count_app. simpl. unfold count. simpl. lia. }
    split.
    { intros ticks rf wf t Hns. unfold loop. unfold cfg. simpl. now rewrite Hns. }
    intros fuel o t t1 Hw.
    rewrite (sendTransaction_after_wait _ _ _ _ _ Hw).
    unfold dispatch, ProposeL2OutputDGFTxData, cfg. simpl. rewrite Hdgf. step.
    destruct (e_InitBonds env None (DisputeGameType (Cfg su)) (world t1))
      as [[bond| | |] u1]; simpl;
      try (exists []; now rewrite <- !app_assoc).
    destruct (proposeL2OutputDGFTxData env None (DisputeGameType (Cfg su)) o)
      as [data| | |]; simpl;
      try (exists []; now rewrite <- !app_assoc).
    match goal with
    | |- context [e_Send env ?c u1] =>
        destruct (e_Send env c u1) as [[rcpt| | |] u2]; simpl;
          try (eexists [_]; now rewrite <- !app_assoc)
    end.
    destruct (rcpt_Status rcpt =? ReceiptStatusFailed); simpl;
      eexists [_; _]; now rewrite <- !app_assoc.
Qed.

(** *** The L1-head wait *)

Lemma waitLoop_exit fuel blockNum l1head s :
  blockNum < l1head -> waitLoop env fuel blockNum l1head s = (Ok tt, s).
Proof.
  intros Hlt. apply Z.leb_gt in Hlt. destruct fuel; simpl; now rewrite Hlt.
Qed.

(** A successful wait ends on the first observed head above [blockNum]. *)
Lemma waitLoop_ok fuel blockNum :
  forall l1head s s' tr0,
    trace s = tr0 ++ [EvBlockNumber (Ok l1head)] ->
    waitLoop env fuel blockNum l1head s = (Ok tt, s') ->
    exists evs h,
      trace s' = tr0 ++ evs ++ [EvBlockNumber (Ok h)]
      /\ blockNum < h
      /\ Forall (fun h' => h' <= blockNum) (heads evs).
Proof.
  induction fuel as [|fuel IH]; intros l1head s s' tr0 Htr; simpl;
    destruct (l1head <=? blockNum) eqn:Hle.
  - discriminate.
  - intros H. injection H as <-. apply Z.leb_gt in Hle.
    exists [], l1head. simpl. now repeat split.
  - apply Z.leb_le in Hle. step.
    destruct (e_select env (world s)) as [[|] w1]; [|discriminate].
    destruct (e_BlockNumber env w1) as [[h1| | |] w2]; simpl; try discriminate.
    intros Hrun.
    eapply (IH h1 _ s' (tr0 ++ [EvBlockNumber (Ok l1head);
                                  EvLog LvlDebug LogWaitingL1Head;
                                  EvSelect SelTick])) in Hrun.
    + destruct Hrun as (evs & h & Ht & Hh & Hall).
      exists ([EvBlockNumber (Ok l1head); EvLog LvlDebug LogWaitingL1Head;
               EvSelect SelTick] ++ evs), h.
      split; [rewrite Ht; now rewrite <- !app_assoc|].
      split; [exact Hh|]. simpl. now constructor.
    + simpl. rewrite Htr. now rewrite <- !app_assoc.
  - intros H. injection H as <-. apply Z.leb_gt in Hle.
    exists [], l1head. simpl. now repeat split.
Qed.

Lemma waitForL1Head_ok fuel l blockNum s s' :
  waitForL1Head env fuel l blockNum s = (Ok tt, s') ->
  exists evs h,
    trace s' = trace s ++ evs ++ [EvBlockNumber (Ok h)]
    /\ blockNum < h
    /\ Forall (fun h' => h' <= blockNum) (heads evs).
Proof.
  unfold waitForL1Head, newTicker.
  destruct (PollInterval (cfg l) <=? 0); [discriminate|]. step.
  destruct (e_BlockNumber env (world s)) as [[h0| | |] w1]; simpl; try discriminate.
  apply waitLoop_ok. reflexivity.
Qed.

(** C2, as the code has it: with [H = output.Status.HeadL1.Number] (and
    [H + 1] representable in 64 bits), the wait before dispatch returns
    successfully only once the observed L1 head is above [H + 1]: every
    head observed before the last one is at most [H + 1], the last one is
    above it, the loop is left at once on such a head, and
    [sendTransaction] then goes on to dispatch; when the wait does not
    succeed, [sendTransaction] stops with the wait's result. *)
Theorem waitForL1Head_beyond_next fuel l o
  (Hrange : 0 <= l1_Number (HeadL1 (Status o)) < two64 - 1) :
  (forall s s',
      waitForL1Head env fuel l (wrap64 (l1_Number (HeadL1 (Status o)) + 1)) s = (Ok tt, s') ->
      exists evs h,
        trace s' = trace s ++ evs ++ [EvBlockNumber (Ok h)]
        /\ l1_Number (HeadL1 (Status o)) + 1 < h
        /\ Forall (fun h' => h' <= l1_Number (HeadL1 (Status o)) + 1) (heads evs))
  /\
  (forall s h,
      l1_Number (HeadL1 (Status o)) + 1 < h ->
      waitLoop env fuel (wrap64 (l1_Number (HeadL1 (Status o)) + 1)) h s = (Ok tt, s))
  /\
  (forall s r s',
      waitForL1Head env fuel l (wrap64 (l1_Number (HeadL1 (Status o)) + 1)) s = (r, s') ->
      sendTransaction env fuel l o s
      = if is_Ok r
        then (receipt <- dispatch env l o ;;
              if rcpt_Status receipt =? ReceiptStatusFailed
              then emit (EvLog LvlError LogReverted)
              else emit (EvLog LvlInfo LogPublished))
               (mkState (world s') (trace s' ++ [EvLog LvlInfo LogProposing]))
        else (r, s')).
Proof.
  assert (wrap64 (l1_Number (HeadL1 (Status o)) + 1) = l1_Number (HeadL1 (Status o)) + 1)
    as Hw by (unfold wrap64; apply Z.mod_small; lia).
  rewrite Hw. repeat split.
  - intros s s'. apply waitForL1Head_ok.
  - intros s h. apply waitLoop_exit.
  - intros s r s' Hrun. destruct r as [[]| | |]; simpl.
    + apply sendTransaction_after_wait. now rewrite Hw.
    + apply sendTransaction_wait_failed; [now rewrite Hw | reflexivity].
    + apply sendTransaction_wait_failed; [now rewrite Hw | reflexivity].
    + apply sendTransaction_wait_failed; [now rewrite Hw | reflexivity].
Qed.

(** *** The retry loop of the Dispute-Factory scheduler *)

Lemma FetchDGFOutput_emits l : emitsOnly fetch_event (FetchDGFOutput env l).
Proof.
  unfold FetchDGFOutput, FetchCurrentBlockNumber, FetchOutput.
  apply emitsOnly_bind.
  - apply emitsOnly_bind; [auto with emits|]. intros h.
    apply emitsOnly_bind; [auto with emits|]. intros st.
    destruct (AllowNonFinalized (cfg l)); auto with emits.
  - intros block.
    apply emitsOnly_bind; [auto with emits|]. intros h.
    apply emitsOnly_bind; [auto with emits|]. intros o.
    destruct (negb _); [auto with emits|].
    destruct (negb _); auto with emits.
Qed.

Lemma FetchDGFOutput_counts l s r s' (q : Event -> bool) :
  FetchDGFOutput env l s = (r, s') ->
  (forall ev, fetch_event ev = true -> q ev = false) ->
  count q (trace s') = count q (trace s).
Proof.
  intros Hrun Hq.
  pose proof (emitsOnly_count fetch_event q _ s (FetchDGFOutput_emits l) Hq) as Hc.
  now rewrite Hrun in Hc.
Qed.

Lemma fetch_event_not_sleep ev : fetch_event ev = true -> is_sleep ev = false.
Proof. now destruct ev. Qed.

Lemma fetch_event_not_poll ev : fetch_event ev = true -> is_poll ev = false.
Proof. now destruct ev. Qed.

Lemma pollDone_trace s b s1 :
  pollDone env s = (Ok b, s1) -> trace s1 = trace s ++ [EvPollDone b].
Proof.
  unfold pollDone. destruct (e_poll_done env (world s)) as [b' w'].
  intros H. now injection H as <- <-.
Qed.

Lemma pollDone_total s : exists b s1, pollDone env s = (Ok b, s1).
Proof.
  unfold pollDone. destruct (e_poll_done env (world s)) as [b w']. now eexists _, _.
Qed.

(** One failed iteration: log, sleep, and go round again. *)
Lemma retryFetch_failure rf l s s1 e s2 :
  pollDone env s = (Ok false, s1) ->
  FetchDGFOutput env l s1 = (Err e, s2) ->
  retryFetch env (S rf) l s
  = retryFetch env rf l
      (snd (sleep env (OutputRetryInterval (cfg l))
              (snd (emit (EvLog LvlWarn LogDGFOutputError) s2)))).
Proof.
  intros Hp Hf. simpl. unfold bind at 1. rewrite Hp. simpl. rewrite Hf. reflexivity.
Qed.

Lemma retryFetch_success rf l s s1 o s2 :
  pollDone env s = (Ok false, s1) ->
  FetchDGFOutput env l s1 = (Ok o, s2) ->
  retryFetch env (S rf) l s = (Ok (Some o), s2).
Proof.
  intros Hp Hf. simpl. unfold bind at 1. rewrite Hp. simpl. now rewrite Hf.
Qed.

Lemma failsThenSucceeds_retry l n s o s' :
  failsThenSucceeds env l n s o s' ->
  forall rf, (n < rf)%nat ->
    retryFetch env rf l s = (Ok (Some o), s')
    /\ count is_sleep (trace s') = (count is_sleep (trace s) + n)%nat
    /\ count is_poll (trace s') = (count is_poll (trace s) + n + 1)%nat.
Proof.
  induction 1 as [s s1 o s2 Hp Hf | n s s1 e s2 o s' Hp Hf Hrest IH]; intros rf Hrf.
  - destruct rf as [|rf]; [lia|].
    split; [now apply retryFetch_success with s1|].
    rewrite (FetchDGFOutput_counts _ _ _ _ is_sleep Hf fetch_event_not_sleep).
    rewrite (FetchDGFOutput_counts _ _ _ _ is_poll Hf fetch_event_not_poll).
    rewrite (pollDone_trace _ _ _ Hp), !count_app. unfold count; simpl. lia.
  - destruct rf as [|rf]; [lia|].
    rewrite (retryFetch_failure rf l s s1 e s2 Hp Hf).
    destruct (IH rf ltac:(lia)) as (Hrun & Hs & Hq).
    split; [exact Hrun|].
    rewrite Hs, Hq. simpl. rewrite !count_app.
    rewrite (FetchDGFOutput_counts _ _ _ _ is_sleep Hf fetch_event_not_sleep).
    rewrite (FetchDGFOutput_counts _ _ _ _ is_poll Hf fetch_event_not_poll).
    rewrite (pollDone_trace _ _ _ Hp), !count_app. unfold count; simpl. lia.
Qed.

(** The loop leaves only through a successful fetch or an observed
    shutdown; a failed fetch is never its result. *)
Lemma retryFetch_exits rf l :
  forall s r s',
    retryFetch env rf l s = (r, s') ->
    match r with
    | Ok (Some o) => exists s1, FetchDGFOutput env l s1 = (Ok o, s')
    | Ok None => exists tr, trace s' = tr ++ [EvPollDone true]
    | Err _ => False
    | Panic _ | OutOfFuel => True
    end.
Proof.
  induction rf as [|rf IH]; intros s r s'; simpl.
  - intros H. now injection H as <- <-.
  - unfold bind at 1. destruct (pollDone_total s) as ([|] & s1 & Hp); rewrite Hp; simpl.
    + intros H. injection H as <- <-. exists (trace s). now apply pollDone_trace.
    + destruct (FetchDGFOutput env l s1) as [[o|e|k|] s2] eqn:Hf.
      * intros H. injection H as <- <-. now exists s1.
      * apply IH.
      * intros H. now injection H as <- <-.
      * intros H. now injection H as <- <-.
Qed.

Lemma retryFetch_closed rf l s s1 :
  pollDone env s = (Ok true, s1) ->
  retryFetch env (S rf) l s = (Ok None, s1).
Proof. intros Hp. simpl. unfold bind at 1. now rewrite Hp. Qed.

Lemma retryFetch_panic rf l s s1 k s2 :
  pollDone env s = (Ok false, s1) ->
  FetchDGFOutput env l s1 = (Panic k, s2) ->
  retryFetch env (S rf) l s = (Panic k, s2).
Proof. intros Hp Hf. simpl. unfold bind at 1. rewrite Hp. simpl. now rewrite Hf. Qed.

Lemma retryFetch_diverges rf l s s1 s2 :
  pollDone env s = (Ok false, s1) ->
  FetchDGFOutput env l s1 = (OutOfFuel, s2) ->
  retryFetch env (S rf) l s = (OutOfFuel, s2).
Proof. intros Hp Hf. simpl. unfold bind at 1. rewrite Hp. simpl. now rewrite Hf. Qed.

(** Polls and sleeps alternate: the loop polls [done] before every fetch. *)
Lemma retryFetch_polls rf l :
  forall s r s',
    retryFetch env rf l s = (r, s') ->
    exists polls sleeps,
      count is_poll (trace s') = (count is_poll (trace s) + polls)%nat
      /\ count is_sleep (trace s') = (count is_sleep (trace s) + sleeps)%nat
      /\ (sleeps <= polls <= sleeps + 1)%nat
      /\ (r <> OutOfFuel -> polls = (sleeps + 1)%nat).
Proof.
  induction rf as [|rf IH]; intros s r s' Hrun.
  - simpl in Hrun. injection Hrun as <- <-. exists 0%nat, 0%nat.
    repeat split; try lia. congruence.
  - destruct (pollDone_total s) as ([|] & s1 & Hp).
    + rewrite (retryFetch_closed rf l s s1 Hp) in Hrun. injection Hrun as <- <-.
      exists 1%nat, 0%nat. rewrite (pollDone_trace _ _ _ Hp), !count_app.
      unfold count; simpl. repeat split; lia.
    + pose proof (pollDone_trace _ _ _ Hp) as Ht1.
      destruct (FetchDGFOutput env l s1) as [[o|e|k|] s2] eqn:Hf;
        pose proof (FetchDGFOutput_counts _ _ _ _ is_sleep Hf fetch_event_not_sleep) as Hs;
        pose proof (FetchDGFOutput_counts _ _ _ _ is_poll Hf fetch_event_not_poll) as Hq;
        rewrite Ht1, count_app in Hs, Hq;
        change (count is_sleep [EvPollDone false]) with 0%nat in Hs;
        change (count is_poll [EvPollDone false]) with 1%nat in Hq.
      * rewrite (retryFetch_success rf l s s1 o s2 Hp Hf) in Hrun.
        injection Hrun as <- <-. exists 1%nat, 0%nat. repeat split; lia.
      * rewrite (retryFetch_failure rf l s s1 e s2 Hp Hf) in Hrun.
        apply IH in Hrun. destruct Hrun as (polls & sleeps & I1 & I2 & I3 & I4).
        simpl in I1, I2. rewrite !count_app in I1, I2.
        change (count is_poll [EvLog LvlWarn LogDGFOutputError]) with 0%nat in I1.
        change (count is_poll [EvSleep (OutputRetryInterval (cfg l))]) with 0%nat in I1.
        change (count is_sleep [EvLog LvlWarn LogDGFOutputError]) with 0%nat in I2.
        change (count is_sleep [EvSleep (OutputRetryInterval (cfg l))]) with 1%nat in I2.
        exists (S polls), (S sleeps). repeat split; try lia.
        intros Hr. specialize (I4 Hr). lia.
      * rewrite (retryFetch_panic rf l s s1 k s2 Hp Hf) in Hrun.
        injection Hrun as <- <-. exists 1%nat, 0%nat. repeat split; lia.
      * rewrite (retryFetch_diverges rf l s s1 s2 Hp Hf) in Hrun.
        injection Hrun as <- <-. exists 1%nat, 0%nat. repeat split; lia.
Qed.

(** While [done] stays open and fetches keep failing, the loop keeps going. *)
Lemma retryFetch_persists l
  (Hopen : forall w, fst (e_poll_done env w) = false)
  (Hfail : forall s, exists e, fst (FetchDGFOutput env l s) = Err e) :
  forall rf s,
    fst (retryFetch env rf l s) = OutOfFuel
    /\ count is_sleep (trace (snd (retryFetch env rf l s)))
       = (count is_sleep (trace s) + rf)%nat.
Proof.
  induction rf as [|rf IH]; intros s.
  - simpl. split; [reflexivity | lia].
  - destruct (pollDone_total s) as (b & s1 & Hp).
    assert (b = false) as ->.
    { unfold pollDone in Hp. specialize (Hopen (world s)).
      destruct (e_poll_done env (world s)) as [b' w']. simpl in Hopen.
      injection Hp as <- _. exact Hopen. }
    destruct (Hfail s1) as (e & He).
    destruct (FetchDGFOutput env l s1) as [r s2] eqn:Hf. simpl in He. subst r.
    rewrite (retryFetch_failure rf l s s1 e s2 Hp Hf).
    destruct (IH (snd (sleep env (OutputRetryInterval (cfg l))
                         (snd (emit (EvLog LvlWarn LogDGFOutputError) s2)))))
      as (Hr & Hs).
    split; [exact Hr|]. rewrite Hs. simpl. rewrite !count_app.
    rewrite (FetchDGFOutput_counts _ _ _ _ is_sleep Hf fetch_event_not_sleep).
    rewrite (pollDone_trace _ _ _ Hp), !count_app. unfold count; simpl. lia.
Qed.

Lemma fetch_event_retry d ev : fetch_event ev = true -> retry_event d ev = true.
Proof. now destruct ev. Qed.

Lemma retryFetch_emits rf l :
  emitsOnly (retry_event (OutputRetryInterval (cfg l))) (retryFetch env rf l).
Proof.
  induction rf as [|rf IH]; simpl; [auto with emits|].
  apply emitsOnly_bind; [auto with emits|]. intros [|]; [auto with emits|].
  intros s.
  destruct (emitsOnly_weaken _ _ _ (fetch_event_retry (OutputRetryInterval (cfg l)))
              (FetchDGFOutput_emits l) s) as (evs & Ht & Hp).
  destruct (FetchDGFOutput env l s) as [[o|e|k|] s2]; simpl in *; try (now exists evs).
  assert (emitsOnly (retry_event (OutputRetryInterval (cfg l)))
            (emit (EvLog LvlWarn LogDGFOutputError) ;;
             sleep env (OutputRetryInterval (cfg l)) ;;
             retryFetch env rf l)) as Hk.
  { apply emitsOnly_bind; [auto with emits|]. intros _.
    apply emitsOnly_bind; [|intros _; exact IH].
    apply emitsOnly_sleep. simpl. apply Z.eqb_refl. }
  destruct (Hk s2) as (evs' & Ht' & Hp').
  exists (evs ++ evs'). rewrite Ht', Ht, app_assoc, forallb_app, Hp, Hp'. now split.
Qed.

(** A successful [dispatch] ends by handing the transaction manager one
    candidate, addressed to the destination of the mode and carrying the
    call data packed from the output. *)
Lemma dispatch_sends l o s rcpt s2 :
  dispatch env l o s = (Ok rcpt, s2) ->
  exists pre c,
    trace s2 = trace s ++ pre ++ [EvSend c (Ok rcpt)]
    /\ count is_send pre = 0%nat
    /\ To c = destination l
    /\ match DisputeGameFactoryAddr (cfg l) with
       | Some _ => proposeL2OutputDGFTxData env (dgfABI l) (DisputeGameType (cfg l)) o
       | None => proposeL2OutputTxData env (l2ooABI l) o
       end = Ok (TxData c).
Proof.
  unfold dispatch, destination.
  destruct (DisputeGameFactoryAddr (cfg l)) as [dgf|] eqn:Hd.
  - unfold ProposeL2OutputDGFTxData. step.
    destruct (e_InitBonds env (dgfContract l) (DisputeGameType (cfg l)) (world s))
      as [[bond| | |] w1]; simpl; try discriminate.
    destruct (proposeL2OutputDGFTxData env (dgfABI l) (DisputeGameType (cfg l)) o)
      as [data| | |] eqn:Hdata; simpl; try discriminate.
    match goal with
    | |- context [e_Send env ?c w1] => destruct (e_Send env c w1) as [r w2] eqn:Hs
    end.
    simpl. intros H. injection H as -> <-. simpl.
    eexists [_], _. rewrite <- app_assoc. split; [reflexivity|]. now repeat split.
  - unfold ProposeL2OutputTxData. step.
    destruct (proposeL2OutputTxData env (l2ooABI l) o) as [data| | |] eqn:Hdata; simpl;
      try discriminate.
    match goal with
    | |- context [e_Send env ?c (world s)] =>
        destruct (e_Send env c (world s)) as [r w2] eqn:Hs
    end.
    simpl. intros H. injection H as -> <-. simpl.
    eexists [], _. split; [reflexivity|]. now repeat split.
Qed.

(** C7: in factory mode, within one tick, when the fetch fails [n] times
    in a row and then succeeds (and [done] is seen open at each check),
    the scheduler sleeps exactly [n] times, polls [done] [n + 1] times,
    and proposes the output of the first successful fetch: [loopDGF] hands
    that output to [proposeOutput], so that, when the L1-head wait ends
    and the dispatch succeeds, one transaction carrying the call data
    packed from that output is sent to the destination of the mode, the
    metric is recorded for the block of that output, and the loop goes on
    to its next tick.  Whatever happens, the retry loop returns only after
    a successful fetch or after seeing [done] closed, never with the error
    of a failed fetch; it polls [done] at the top of every iteration, and
    each of its sleeps lasts the configured retry interval.  As long as
    fetches fail and [done] stays open, it is still retrying after any
    number of iterations. *)
Theorem loopDGF_retries_until_fetched :
  (forall l n s o s' rf wf,
      failsThenSucceeds env l n s o s' ->
      (n < rf)%nat ->
      retryFetch env rf l s = (Ok (Some o), s')
      /\ count is_sleep (trace s') = (count is_sleep (trace s) + n)%nat
      /\ count is_poll (trace s') = (count is_poll (trace s) + n + 1)%nat
      /\ tickDGF env rf wf l s = (proposeOutput env wf l o ;; ret false) s')
  /\
  (forall l n s0 s o s' rf wf ticks s1 rcpt s2,
      select env s0 = (Ok SelTick, s) ->
      failsThenSucceeds env l n s o s' ->
      (n < rf)%nat ->
      waitForL1Head env wf l (wrap64 (l1_Number (HeadL1 (Status o)) + 1)) s' = (Ok tt, s1) ->
      dispatch env l o (mkState (world s1) (trace s1 ++ [EvLog LvlInfo LogProposing]))
      = (Ok rcpt, s2) ->
      exists pre c,
        trace s2 = trace s1 ++ [EvLog LvlInfo LogProposing] ++ pre ++ [EvSend c (Ok rcpt)]
        /\ count is_send pre = 0%nat
        /\ To c = destination l
        /\ match DisputeGameFactoryAddr (cfg l) with
           | Some _ =>
               proposeL2OutputDGFTxData env (dgfABI l) (DisputeGameType (cfg l)) o
           | None => proposeL2OutputTxData env (l2ooABI l) o
           end = Ok (TxData c)
        /\ loopDGF_body env (S ticks) rf wf l s0
           = loopDGF_body env ticks rf wf l
               (mkState (world s2)
                  (trace s2
                   ++ [if rcpt_Status rcpt =? ReceiptStatusFailed
                       then EvLog LvlError LogReverted
                       else EvLog LvlInfo LogPublished;
                       EvRecordL2BlocksProposed (BlockRef o)])))
  /\
  (forall rf l s r s',
      retryFetch env rf l s = (r, s') ->
      match r with
      | Ok (Some o) => exists s1, FetchDGFOutput env l s1 = (Ok o, s')
      | Ok None => exists tr, trace s' = tr ++ [EvPollDone true]
      | Err _ => False
      | Panic _ | OutOfFuel => True
      end)
  /\
  (forall rf l s r s',
      retryFetch env rf l s = (r, s') ->
      exists polls sleeps,
        count is_poll (trace s') = (count is_poll (trace s) + polls)%nat
        /\ count is_sleep (trace s') = (count is_sleep (trace s) + sleeps)%nat
        /\ (sleeps <= polls <= sleeps + 1)%nat
        /\ (r <> OutOfFuel -> polls = (sleeps + 1)%nat))
  /\
  (forall rf l, emitsOnly (retry_event (OutputRetryInterval (cfg l))) (retryFetch env rf l))
  /\
  (forall l,
      (forall w, fst (e_poll_done env w) = false) ->
      (forall s, exists e, fst (FetchDGFOutput env l s) = Err e) ->
      forall rf s,
        fst (retryFetch env rf l s) = OutOfFuel
        /\ count is_sleep (trace (snd (retryFetch env rf l s)))
           = (count is_sleep (trace s) + rf)%nat).
Proof.
  split; [|split; [|split; [|split; [|split]]]].
  - intros l n s o s' rf wf Hrun Hrf.
    destruct (failsThenSucceeds_retry l n s o s' Hrun rf Hrf) as (Hr & Hs & Hq).
    repeat split; try assumption.
    unfold tickDGF. unfold bind at 1. rewrite Hr. reflexivity.
  - intros l n s0 s o s' rf wf ticks s1 rcpt s2 Hsel Hrun Hrf Hwait Hd.
    destruct (failsThenSucceeds_retry l n s o s' Hrun rf Hrf) as (Hr & _).
    destruct (dispatch_sends _ _ _ _ _ Hd) as (pre & c & Ht & Hpre & Hto & Hdata).
    exists pre, c. simpl in Ht. rewrite <- app_assoc in Ht.
    repeat split; try assumption.
    assert (tickDGF env rf wf l s
            = (Ok false,
               mkState (world s2)
                 (trace s2
                  ++ [if rcpt_Status rcpt =? ReceiptStatusFailed
                      then EvLog LvlError LogReverted
                      else EvLog LvlInfo LogPublished;
                      EvRecordL2BlocksProposed (BlockRef o)]))) as Htick.
    { unfold tickDGF. unfold bind at 1. rewrite Hr. unfold bind at 1.
      unfold proposeOutput. rewrite (sendTransaction_after_wait _ _ _ _ _ Hwait).
      unfold bind at 1. rewrite Hd.
      destruct (rcpt_Status rcpt =? ReceiptStatusFailed); unfold emit, ret; simpl;
        now rewrite <- app_assoc. }
    simpl. unfold bind at 1. rewrite Hsel. unfold bind at 1. now rewrite Htick.
  - intros rf l. apply retryFetch_exits.
  - intros rf l. apply retryFetch_polls.
  - apply retryFetch_emits.
  - apply retryFetch_persists.
Qed.

End Facts.

(** ** Facts about the lifecycle *)

Section LifecycleFacts.

Import Lifecycle.

Lemma workerDone_iter n s :
  wg (Nat.iter n workerDone s) = (wg s - n)%nat
  /\ running (Nat.iter n workerDone s) = running s
  /\ spawned (Nat.iter n workerDone s) = spawned s
  /\ cancelled (Nat.iter n workerDone s) = cancelled s
  /\ done_closed (Nat.iter n workerDone s) = done_closed s.
Proof.
  induction n as [|n IH]; simpl.
  - repeat split. lia.
  - destruct IH as (Hw & Hr & Hs & Hc & Hd). repeat split; try assumption.
    rewrite Hw. lia.
Qed.

(** [wg.Wait()] returns exactly when every counted worker has exited. *)
Lemma wg_Wait_returns exits s :
  (fst (wg_Wait exits s) = Ok tt <-> (wg s <= exits)%nat)
  /\ (fst (wg_Wait exits s) = Ok tt \/ fst (wg_Wait exits s) = OutOfFuel)
  /\ (fst (wg_Wait exits s) = Ok tt -> wg (snd (wg_Wait exits s)) = 0%nat)
  /\ running (snd (wg_Wait exits s)) = running s
  /\ spawned (snd (wg_Wait exits s)) = spawned s
  /\ cancelled (snd (wg_Wait exits s)) = cancelled s
  /\ done_closed (snd (wg_Wait exits s)) = done_closed s.
Proof.
  unfold wg_Wait.
  destruct (workerDone_iter (Nat.min exits (wg s)) s) as (Hw & Hr & Hs & Hc & Hd).
  destruct (Nat.eqb (wg (Nat.iter (Nat.min exits (wg s)) workerDone s)) 0) eqn:E; simpl.
  - apply Nat.eqb_eq in E. repeat split; auto; intros; try lia.
  - apply Nat.eqb_neq in E. repeat split; auto; try discriminate; intros; lia.
Qed.

(** C6, as the code has it: [Start] fails with the already-running error
    exactly when the driver is running, and otherwise starts exactly one
    worker and succeeds.  [Stop] fails with [ErrProposerNotRunning]
    exactly when the driver is not running, leaving the state unchanged.
    Called while running on a driver whose [done] channel is still open,
    [Stop] clears [running], cancels the context, closes [done] and then
    returns, with success, exactly when every worker has exited, not
    before.  [StopIfRunning] succeeds where [Stop] reports not-running and
    otherwise behaves as [Stop]. *)
Theorem lifecycle_contract :
  (forall s,
      (fst (StartL2OutputSubmitting s) = Err ErrAlreadyRunning <-> running s = true)
      /\ (running s = true -> snd (StartL2OutputSubmitting s) = s)
      /\ (running s = false ->
          StartL2OutputSubmitting s
          = (Ok tt, {| running := true;
                       wg := S (wg s);
                       spawned := S (spawned s);
                       cancelled := cancelled s;
                       done_closed := done_closed s |})))
  /\
  (forall exits s,
      (fst (StopL2OutputSubmitting exits s) = Err ErrProposerNotRunning
       <-> running s = false)
      /\ (running s = false -> snd (StopL2OutputSubmitting exits s) = s))
  /\
  (forall exits s,
      running s = true ->
      done_closed s = false ->
      let r := fst (StopL2OutputSubmitting exits s) in
      let s' := snd (StopL2OutputSubmitting exits s) in
      running s' = false
      /\ cancelled s' = true
      /\ done_closed s' = true
      /\ spawned s' = spawned s
      /\ (r = Ok tt <-> (wg s <= exits)%nat)
      /\ (r = Ok tt \/ r = OutOfFuel)
      /\ (r = Ok tt -> wg s' = 0%nat))
  /\
  (forall exits s,
      (fst (StopL2OutputSubmitting exits s) = Err ErrProposerNotRunning ->
       StopL2OutputSubmittingIfRunning exits s
       = (Ok tt, snd (StopL2OutputSubmitting exits s)))
      /\ (fst (StopL2OutputSubmitting exits s) <> Err ErrProposerNotRunning ->
          StopL2OutputSubmittingIfRunning exits s = StopL2OutputSubmitting exits s)).
Proof.
  split; [|split; [|split]].
  - intros s. unfold StartL2OutputSubmitting.
    destruct (running s); simpl; repeat split; intros; try congruence.
  - intros exits s. unfold StopL2OutputSubmitting.
    destruct (running s) eqn:Hr; simpl.
    + destruct (done_closed s) eqn:Hd.
      * simpl. repeat split; intros; congruence.
      * match goal with |- context [wg_Wait exits ?t] =>
          destruct (wg_Wait_returns exits t) as (_ & [H|H] & _) end;
          rewrite H; repeat split; intros; congruence.
    + repeat split; intros; congruence.
  - intros exits s Hr Hd r s'. subst r s'. unfold StopL2OutputSubmitting.
    rewrite Hr. simpl. rewrite Hd.
    match goal with |- context [wg_Wait exits ?t] =>
      destruct (wg_Wait_returns exits t) as (H1 & H2 & H3 & H4 & H5 & H6 & H7) end.
    simpl in *. repeat split; try tauto; try apply H1; assumption.
  - intros exits s. unfold StopL2OutputSubmittingIfRunning.
    destruct (StopL2OutputSubmitting exits s) as [[[]|e|k|] s'] eqn:E; simpl;
      split; intros H; try congruence.
    + injection H as ->. reflexivity.
    + unfold StopL2OutputSubmitting in E.
      destruct (running s); simpl in E.
      * destruct (done_closed s); [discriminate|].
        match type of E with wg_Wait exits ?t = _ =>
          destruct (wg_Wait_returns exits t) as (_ & [H'|H'] & _) end;
          rewrite E in H'; discriminate.
      * injection E as <- _. congruence.
Qed.

End LifecycleFacts.

(** ** Runs on explicit inputs *)

Section Examples.

Import Lifecycle.

(** The examples of the specification: finalized head 100, safe head 105.
    Block 100 without the allow-non-finalized flag is proposed; block 105
    is not, unless the flag is set. *)
Example gate_block_100 :
  fst (FetchL2OOOutput (script_env (steady st_example 100 12 1))
         (registry_driver false) start_state)
  = Ok (Some (output_at 100 st_example), true).
Proof. reflexivity. Qed.

Example gate_block_105 :
  fst (FetchL2OOOutput (script_env (scripted (status_of 10 110 105) st_example 105 12 1))
         (registry_driver false) start_state)
  = Ok (Some (output_at 105 st_example), false).
Proof. reflexivity. Qed.

Example gate_block_105_allowed :
  fst (FetchL2OOOutput (script_env (scripted (status_of 10 110 105) st_example 105 12 1))
         (registry_driver true) start_state)
  = Ok (Some (output_at 105 st_example), true).
Proof. reflexivity. Qed.

Lemma FetchL2OOOutput_gate_witness :
  exists b s4,
    FetchL2OOOutput (script_env (scripted (status_of 10 110 105) st_example 105 12 1))
      (registry_driver false) start_state
    = (Ok (Some (output_at 105 st_example), b), s4)
    /\ (b = true <-> eligible false (output_at 105 st_example)).
Proof.
  eapply (proj1 (FetchL2OOOutput_gate
                   (script_env (scripted (status_of 10 110 105) st_example 105 12 1)))
            (registry_driver false) 7%nat start_state 105 1%nat 105).
  - reflexivity.
  - reflexivity.
  - reflexivity.
  - vm_compute. discriminate.
  - reflexivity.
Defined.

Lemma FetchCurrentBlockNumber_boundary_witness :
  fst (FetchCurrentBlockNumber (script_env (steady st_example 100 12 1))
         (registry_driver true) start_state) = Ok 105
  /\ fst (FetchCurrentBlockNumber (script_env (steady st_example 100 12 1))
            (registry_driver false) start_state) = Ok 100.
Proof.
  split.
  - apply (proj1 (FetchCurrentBlockNumber_boundary
                    (script_env (steady st_example 100 12 1))
                    (registry_driver true) start_state 3%nat 1%nat st_example 2%nat
                    eq_refl eq_refl)).
    reflexivity.
  - apply (proj2 (FetchCurrentBlockNumber_boundary
                    (script_env (steady st_example 100 12 1))
                    (registry_driver false) start_state 3%nat 1%nat st_example 2%nat
                    eq_refl eq_refl)).
    reflexivity.
Defined.

Lemma FetchOutput_validates_witness :
  fst (FetchOutput (script_env (with_output bad_version (steady st_example 100 12 1)))
         (registry_driver false) 100 start_state)
  = Err (ErrUnsupportedVersion (Version bad_version) supportedL2OutputVersion)
  /\ fst (FetchOutput (script_env (with_output (output_at 99 st_example)
                                      (steady st_example 100 12 1)))
            (registry_driver false) 100 start_state)
     = Err (ErrBlockMismatch 99 100)
  /\ fst (FetchOutput (script_env (steady st_example 100 12 1))
            (registry_driver false) 100 start_state)
     = Ok (output_at 100 st_example).
Proof.
  split; [|split].
  - apply (proj2 (FetchOutput_validates
                    (script_env (with_output bad_version (steady st_example 100 12 1))))
             (registry_driver false) 100 start_state 3%nat 1%nat bad_version 2%nat
             eq_refl eq_refl).
    vm_compute. discriminate.
  - apply (proj2 (FetchOutput_validates
                    (script_env (with_output (output_at 99 st_example)
                                   (steady st_example 100 12 1))))
             (registry_driver false) 100 start_state 3%nat 1%nat
             (output_at 99 st_example) 2%nat eq_refl eq_refl).
    + reflexivity.
    + vm_compute. discriminate.
  - apply (proj2 (FetchOutput_validates (script_env (steady st_example 100 12 1)))
             (registry_driver false) 100 start_state 3%nat 1%nat
             (output_at 100 st_example) 2%nat eq_refl eq_refl).
    + reflexivity.
    + reflexivity.
Defined.

Lemma FetchL2OOOutput_too_early_witness :
  fst (FetchL2OOOutput (script_env (steady st_example 101 12 1))
         (registry_driver false) start_state) = Ok (None, false)
  /\ count is_output_fetch
       (trace (snd (FetchL2OOOutput (script_env (steady st_example 101 12 1))
                      (registry_driver false) start_state))) = 0%nat.
Proof.
  assert (0 <= 101 < two64) as Hrange by (unfold two64; lia).
  destruct (FetchL2OOOutput_too_early (script_env (steady st_example 101 12 1))
              (registry_driver false) 7%nat start_state 101 1%nat 3%nat 2%nat
              st_example 3%nat eq_refl eq_refl Hrange eq_refl eq_refl eq_refl)
    as [Hrun _].
  rewrite Hrun. split; reflexivity.
Defined.

(** C5 as stated fails: the registry answers [2^64 + 50] while the
    finalized head is 100, so the boundary is below the registry's next
    block; yet the answer is read as the [uint64] 50, the output of block
    50 is fetched and the call says it should be proposed. *)
Lemma registry_answer_beyond_uint64 :
  sc_next (steady st_example (2 ^ 64 + 50) 12 1) 0%nat = Ok (2 ^ 64 + 50)
  /\ boundary (AllowNonFinalized (cfg (registry_driver false))) st_example < 2 ^ 64 + 50
  /\ fst (FetchL2OOOutput overflow_world (registry_driver false) start_state)
     = Ok (Some (output_at 50 st_example), true)
  /\ count is_output_fetch
       (trace (snd (FetchL2OOOutput overflow_world (registry_driver false) start_state)))
     = 1%nat.
Proof. repeat split. Qed.

Lemma NewL2OutputSubmitter_neither_witness :
  fst (NewL2OutputSubmitter (script_env (steady st_example 100 12 1))
         {| Cfg := config_of None None false |} start_state)
  = Err ErrNeitherAddress.
Proof.
  destruct (NewL2OutputSubmitter_neither (script_env (steady st_example 100 12 1))
              {| Cfg := config_of None None false |} start_state eq_refl eq_refl)
    as [Hrun _].
  now rewrite Hrun.
Defined.

(** A confirmed but reverted transaction: the metric is recorded. *)
Lemma proposeOutput_metric_witness :
  fst (sendTransaction (script_env (steady st_example 100 12 0)) 5
         (registry_driver false) (output_at 100 st_example) start_state) = Ok tt
  /\ count is_metric
       (trace (snd (proposeOutput (script_env (steady st_example 100 12 0)) 5
                      (registry_driver false) (output_at 100 st_example) start_state)))
     = 1%nat
  /\ exists s2,
       proposeOutput (script_env (steady st_example 100 12 0)) 5
         (registry_driver false) (output_at 100 st_example) start_state
       = (Ok tt, mkState (world s2)
                   (trace s2 ++ [EvLog LvlError LogReverted;
                                 EvRecordL2BlocksProposed (ref2 100)])).
Proof.
  split; [reflexivity|]. split.
  - rewrite (proj1 (proposeOutput_metric (script_env (steady st_example 100 12 0)))).
    reflexivity.
  - eexists.
    eapply (proj1 (proj2 (proposeOutput_metric (script_env (steady st_example 100 12 0))))
              5%nat (registry_driver false) (output_at 100 st_example) start_state).
    + reflexivity.
    + vm_compute. reflexivity.
    + reflexivity.
Defined.

(** Both addresses configured: the constructed driver is [both_driver],
    and its dispatch reaches the bond lookup with a nil handle. *)
Lemma both_addresses_witness :
  fst (NewL2OutputSubmitter (script_env (steady st_example 100 12 1)) both_setup start_state)
  = Ok (Some both_driver)
  /\ exists evs,
       trace (snd (sendTransaction (script_env (steady st_example 100 12 1)) 5
                     both_driver (output_at 100 st_example) start_state))
       = [EvBlockNumber (Ok 12)]
         ++ [EvLog LvlInfo LogProposing; EvInitBonds None 0] ++ evs.
Proof.
  destruct (both_addresses_nil_factory_handle
              (script_env (steady st_example 100 12 1)) both_setup 1 2 eq_refl eq_refl)
    as (_ & Hnew & Hsend).
  split.
  - apply (Hnew start_state 7%nat "1.0.0"%string 8%nat 1%nat 2%nat 3%nat);
      reflexivity.
  - destruct (Hsend start_state both_driver
                (snd (NewL2OutputSubmitter (script_env (steady st_example 100 12 1))
                        both_setup start_state)) eq_refl)
      as (_ & _ & _ & _ & _ & Hbond).
    apply (Hbond 5%nat (output_at 100 st_example) start_state
             (mkState 1%nat [EvBlockNumber (Ok 12)])).
    reflexivity.
Defined.

(** In the scripted world the bindings dereference their receiver, so the
    nil handle makes the dispatch panic. *)
Example both_addresses_panic :
  fst (sendTransaction (script_env (steady st_example 100 12 1)) 5
         both_driver (output_at 100 st_example) start_state)
  = Panic NilDereference.
Proof. reflexivity. Qed.

(** With [H = 10], an observed head of 12 ends the wait. *)
Lemma waitForL1Head_beyond_next_witness :
  waitLoop (script_env (steady st_example 100 12 1)) 0
    (wrap64 (l1_Number (HeadL1 (Status (output_at 100 st_example))) + 1)) 12 start_state
  = (Ok tt, start_state).
Proof.
  apply (proj1 (proj2 (waitForL1Head_beyond_next
                         (script_env (steady st_example 100 12 1)) 0%nat
                         (registry_driver false) (output_at 100 st_example)
                         ltac:(vm_compute; split; congruence)))).
  reflexivity.
Defined.

Lemma waitLoop_at_next_starves fuel :
  forall s,
    fst (waitLoop (script_env (steady st_example 100 11 1)) fuel 11 11 s) = OutOfFuel
    /\ count is_send
         (trace (snd (waitLoop (script_env (steady st_example 100 11 1)) fuel 11 11 s)))
       = count is_send (trace s).
Proof.
  induction fuel as [|fuel IH]; intros s; [now split|].
  specialize (IH (mkState (S (S (world s)))
                    (((trace s ++ [EvLog LvlDebug LogWaitingL1Head])
                        ++ [EvSelect SelTick]) ++ [EvBlockNumber (Ok 11)]))).
  destruct IH as [Hr Hc]. split.
  - exact Hr.
  - etransitivity; [exact Hc|]. simpl. rewrite !count_app. unfold count; simpl. lia.
Qed.

(** C2 as stated fails: with [H = 10] and an L1 head that stays at 11,
    which exceeds [H], the wait never returns and nothing is dispatched,
    however many polls are allowed. *)
Lemma wait_does_not_end_at_H_plus_one :
  l1_Number (HeadL1 (Status (output_at 100 st_example))) = 10
  /\ sc_head (steady st_example 100 11 1) = (fun _ => Ok 11)
  /\ forall fuel,
       fst (sendTransaction (script_env (steady st_example 100 11 1)) fuel
              (registry_driver false) (output_at 100 st_example) start_state)
       = OutOfFuel
       /\ count is_send
            (trace (snd (sendTransaction (script_env (steady st_example 100 11 1)) fuel
                           (registry_driver false) (output_at 100 st_example)
                           start_state)))
          = 0%nat.
Proof.
  split; [reflexivity|]. split; [reflexivity|]. intros fuel.
  pose proof (waitLoop_at_next_starves fuel (mkState 1%nat [EvBlockNumber (Ok 11)]))
    as [Hr Hc].
  unfold sendTransaction, waitForL1Head.
  change (wrap64 (l1_Number (HeadL1 (Status (output_at 100 st_example))) + 1)) with 11.
  unfold bind, call. simpl.
  destruct (waitLoop (script_env (steady st_example 100 11 1)) fuel 11 11
              (mkState 1%nat [EvBlockNumber (Ok 11)])) as [r s1].
  simpl in Hr, Hc. subst r. split; [reflexivity|exact Hc].
Qed.

(** The fetch fails twice, then succeeds: two sleeps, three polls; the
    output is then sent and its block recorded, and the loop goes on. *)
Lemma loopDGF_retries_witness :
  retryFetch flaky_world 3 (factory_driver false) start_state
  = (Ok (Some (output_at 100 st_example)),
     snd (retryFetch flaky_world 3 (factory_driver false) start_state))
  /\ count is_sleep
       (trace (snd (retryFetch flaky_world 3 (factory_driver false) start_state)))
     = 2%nat
  /\ exists s3,
       loopDGF_body flaky_world 1 3 5 (factory_driver false) start_state
       = loopDGF_body flaky_world 0 3 5 (factory_driver false) s3
       /\ count is_sleep (trace s3) = 2%nat
       /\ count is_send (trace s3) = 1%nat
       /\ count is_metric (trace s3) = 1%nat
       /\ In (EvRecordL2BlocksProposed (ref2 100)) (trace s3).
Proof.
  assert (failsThenSucceeds flaky_world (factory_driver false) 2 start_state
            (output_at 100 st_example)
            (snd (retryFetch flaky_world 3 (factory_driver false) start_state))) as Hrun.
  { eapply fts_failure; [reflexivity|reflexivity|].
    eapply fts_failure; [reflexivity|reflexivity|].
    eapply fts_success; reflexivity. }
  destruct (proj1 (loopDGF_retries_until_fetched flaky_world)
              (factory_driver false) 2%nat start_state (output_at 100 st_example) _
              3%nat 5%nat Hrun ltac:(lia)) as (Hr & Hs & _).
  split; [exact Hr|]. split; [exact Hs|].
  pose (s := snd (select flaky_world start_state)).
  pose (s' := snd (retryFetch flaky_world 3 (factory_driver false) s)).
  pose (s1 := snd (waitForL1Head flaky_world 5 (factory_driver false) 11 s')).
  pose (s2 := snd (dispatch flaky_world (factory_driver false) (output_at 100 st_example)
                     (mkState (world s1) (trace s1 ++ [EvLog LvlInfo LogProposing])))).
  assert (failsThenSucceeds flaky_world (factory_driver false) 2 s
            (output_at 100 st_example) s') as Hrun2.
  { eapply fts_failure; [reflexivity|reflexivity|].
    eapply fts_failure; [reflexivity|reflexivity|].
    eapply fts_success; reflexivity. }
  destruct (proj1 (proj2 (loopDGF_retries_until_fetched flaky_world))
              (factory_driver false) 2%nat start_state s (output_at 100 st_example) s'
              3%nat 5%nat 0%nat s1 {| rcpt_Status := 1; rcpt_TxHash := [] |} s2
              eq_refl Hrun2 ltac:(lia) eq_refl eq_refl)
    as (pre & c & _ & _ & _ & _ & Hloop).
  eexists. split; [exact Hloop|].
  split; [reflexivity|]. split; [reflexivity|]. split; [reflexivity|].
  simpl. repeat (try (left; reflexivity); right).
Defined.

(** A fresh driver: start, stop once the worker has exited, stop again. *)
Lemma lifecycle_contract_witness :
  fst (StartL2OutputSubmitting fresh) = Ok tt
  /\ fst (StartL2OutputSubmitting (snd (StartL2OutputSubmitting fresh)))
     = Err ErrAlreadyRunning
  /\ fst (StopL2OutputSubmitting 1 (snd (StartL2OutputSubmitting fresh))) = Ok tt
  /\ fst (StopL2OutputSubmitting 0 (snd (StartL2OutputSubmitting fresh))) = OutOfFuel
  /\ fst (StopL2OutputSubmitting 1 fresh) = Err ErrProposerNotRunning
  /\ StopL2OutputSubmittingIfRunning 1 fresh = (Ok tt, fresh).
Proof.
  destruct lifecycle_contract as (Hstart & Hstop & Hwait & Hif).
  split; [|split; [|split; [|split; [|split]]]].
  - destruct (Hstart fresh) as (_ & _ & H). now rewrite (H eq_refl).
  - now apply (proj1 (Hstart (snd (StartL2OutputSubmitting fresh)))).
  - destruct (Hwait 1%nat (snd (StartL2OutputSubmitting fresh)) eq_refl eq_refl)
      as (_ & _ & _ & _ & H & _).
    apply H. simpl. lia.
  - reflexivity.
  - now apply (proj1 (Hstop 1%nat fresh)).
  - destruct (Hif 1%nat fresh) as (H & _). now rewrite (H eq_refl).
Defined.

(** C6 as stated fails: a driver that was started, stopped and started
    again is running, yet stopping it panics on the second [close(l.done)]
    instead of returning. *)
Lemma Stop_after_restart_panics :
  let s1 := snd (StartL2OutputSubmitting fresh) in
  let s2 := snd (StopL2OutputSubmitting 1 s1) in
  let s3 := snd (StartL2OutputSubmitting s2) in
  fst (StartL2OutputSubmitting fresh) = Ok tt
  /\ fst (StopL2OutputSubmitting 1 s1) = Ok tt
  /\ fst (StartL2OutputSubmitting s2) = Ok tt
  /\ running s3 = true
  /\ forall exits, fst (StopL2OutputSubmitting exits s3) = Panic CloseOfClosedChannel.
Proof. repeat split. Qed.

End Examples.

(** ** Further facts: construction *)

Section FurtherFacts.

Context {W : Type} (env : Env W).

Local Open Scope driver_scope.

Ltac step :=
  unfold bind, wrapErr, onErr, call, emit, ret, fail, panic, cancel; simpl.

Create HintDb further discriminated.

#[local] Hint Resolve emitsOnly_ret emitsOnly_pure emitsOnly_fail emitsOnly_panic
  emitsOnly_emit emitsOnly_call emitsOnly_bind emitsOnly_wrapErr emitsOnly_onErr
  emitsOnly_sleep emitsOnly_select emitsOnly_pollDone : further.

Lemma endsWith_app ev tr0 tr : endsWith ev tr -> endsWith ev (tr0 ++ tr).
Proof. intros [t ->]. exists (tr0 ++ t). now rewrite app_assoc. Qed.

Lemma endsWith_last ev tr : endsWith ev (tr ++ [ev]).
Proof. now exists tr. Qed.

(** How construction succeeds: the three calls of the selected mode all
    succeed, in this order, and nothing else happens. *)
Lemma selectMode_ok su s l s' :
  selectMode env su s = (Ok l, s') ->
  (exists a c v p w1 w2,
      L2OutputOracleAddr (Cfg su) = Some a
      /\ e_NewL2OutputOracleCaller env a (world s) = (Ok c, w1)
      /\ e_L2OOVersion env c w1 = (Ok v, w2)
      /\ e_L2OOGetAbi env w2 = (Ok p, world s')
      /\ l = {| setup := su; l2ooContract := Some c; l2ooABI := Some p;
                dgfContract := None; dgfABI := None |}
      /\ trace s' = trace s ++ [EvNewL2OOCaller a; EvL2OOVersion c;
                                EvLog LvlInfo LogConnectedL2OO; EvL2OOGetAbi])
  \/
  (exists a c v p w1 w2,
      L2OutputOracleAddr (Cfg su) = None
      /\ DisputeGameFactoryAddr (Cfg su) = Some a
      /\ e_NewDisputeGameFactoryCaller env a (world s) = (Ok c, w1)
      /\ e_DGFVersion env c w1 = (Ok v, w2)
      /\ e_DGFGetAbi env w2 = (Ok p, world s')
      /\ l = {| setup := su; l2ooContract := None; l2ooABI := None;
                dgfContract := Some c; dgfABI := Some p |}
      /\ trace s' = trace s ++ [EvNewDGFCaller a; EvDGFVersion c;
                                EvLog LvlInfo LogConnectedDGF; EvDGFGetAbi]).
Proof.
  unfold selectMode.
  destruct (L2OutputOracleAddr (Cfg su)) as [a|] eqn:Ha.
  - unfold newL2OOSubmitter. rewrite Ha. step.
    destruct (e_NewL2OutputOracleCaller env a (world s)) as [[c| | |] w1] eqn:Ec;
      simpl; try discriminate.
    destruct (e_L2OOVersion env c w1) as [[v| | |] w2] eqn:Ev; simpl; try discriminate.
    destruct (e_L2OOGetAbi env w2) as [[p| | |] w3] eqn:Ep; simpl; try discriminate.
    intros H. injection H as <- <-. left. exists a, c, v, p, w1, w2. simpl.
    repeat split; try assumption. now rewrite <- !app_assoc.
  - destruct (DisputeGameFactoryAddr (Cfg su)) as [a|] eqn:Hd; [|discriminate].
    unfold newDGFSubmitter. rewrite Hd. step.
    destruct (e_NewDisputeGameFactoryCaller env a (world s)) as [[c| | |] w1] eqn:Ec;
      simpl; try discriminate.
    destruct (e_DGFVersion env c w1) as [[v| | |] w2] eqn:Ev; simpl; try discriminate.
    destruct (e_DGFGetAbi env w2) as [[p| | |] w3] eqn:Ep; simpl; try discriminate.
    intros H. injection H as <- <-. right. exists a, c, v, p, w1, w2. simpl.
    repeat split; try assumption. now rewrite <- !app_assoc.
Qed.

Lemma NewL2OutputSubmitter_ok su s l s' :
  NewL2OutputSubmitter env su s = (Ok (Some l), s') ->
  selectMode env su (mkState (world s) (trace s ++ [EvWithCancel])) = (Ok l, s').
Proof.
  unfold NewL2OutputSubmitter. unfold bind at 1. unfold emit at 1.
  destruct (selectMode env su _) as [[l'| | |] t]; try discriminate.
  intros H. now injection H as <- <-.
Qed.

(** X1: the constructor never lets the context leak and never panics.
    When it returns an error the context has just been cancelled; when
    its body panics, the deferred [recover()] stops the panic, the context
    is cancelled and the caller receives [(nil, nil)]; when it returns a
    driver, the context has not been cancelled. *)
Theorem NewL2OutputSubmitter_releases_context su s :
  (forall p, fst (NewL2OutputSubmitter env su s) <> Panic p)
  /\ (forall e, fst (NewL2OutputSubmitter env su s) = Err e ->
                endsWith EvCancel (trace (snd (NewL2OutputSubmitter env su s))))
  /\ (fst (NewL2OutputSubmitter env su s) = Ok None <->
      exists p, fst ((emit EvWithCancel ;; selectMode env su) s) = Panic p)
  /\ (fst (NewL2OutputSubmitter env su s) = Ok None ->
      endsWith EvCancel (trace (snd (NewL2OutputSubmitter env su s))))
  /\ (forall l, fst (NewL2OutputSubmitter env su s) = Ok (Some l) ->
                count is_cancel (trace (snd (NewL2OutputSubmitter env su s)))
                = count is_cancel (trace s)).
Proof.
  split; [|split; [|split; [|split]]].
  - intros p. unfold NewL2OutputSubmitter.
    destruct ((emit EvWithCancel ;; selectMode env su) s) as [[l| | |] t]; discriminate.
  - intros e. unfold NewL2OutputSubmitter.
    destruct ((emit EvWithCancel ;; selectMode env su) s) as [[l| | |] t]; simpl;
      try discriminate.
    intros _. apply endsWith_last.
  - unfold NewL2OutputSubmitter.
    destruct ((emit EvWithCancel ;; selectMode env su) s) as [[l| | |] t]; simpl;
      split; try discriminate; try (intros [p Hp]; discriminate).
    + intros _. now exists p.
    + reflexivity.
  - unfold NewL2OutputSubmitter.
    destruct ((emit EvWithCancel ;; selectMode env su) s) as [[l| | |] t]; simpl;
      try discriminate.
    intros _. apply endsWith_last.
  - intros l Hl.
    destruct (NewL2OutputSubmitter env su s) as [r s'] eqn:E. simpl in Hl. subst r.
    apply NewL2OutputSubmitter_ok in E. simpl.
    destruct (selectMode_ok _ _ _ _ E) as
      [(a & c & v & p & w1 & w2 & _ & _ & _ & _ & _ & Ht)
      |(a & c & v & p & w1 & w2 & _ & _ & _ & _ & _ & _ & Ht)];
      rewrite Ht; simpl; rewrite !count_app; unfold count; simpl; lia.
Qed.

(** X2: a driver is returned only when the caller creation, the version
    query and the ABI parsing of the selected mode all succeeded, in this
    order, each in the world the previous one left; the driver then holds
    the handle that creation returned and the ABI that parsing returned,
    of that mode only (registry mode whenever the registry address is set,
    factory mode when only the factory address is), and the setup it was
    given. *)
Theorem NewL2OutputSubmitter_mode su s l s'
  (Hnew : NewL2OutputSubmitter env su s = (Ok (Some l), s')) :
  setup l = su
  /\ ((exists a c v p w1 w2,
          L2OutputOracleAddr (Cfg su) = Some a
          /\ e_NewL2OutputOracleCaller env a (world s) = (Ok c, w1)
          /\ e_L2OOVersion env c w1 = (Ok v, w2)
          /\ e_L2OOGetAbi env w2 = (Ok p, world s')
          /\ l2ooContract l = Some c /\ l2ooABI l = Some p
          /\ dgfContract l = None /\ dgfABI l = None
          /\ trace s' = trace s ++ [EvWithCancel; EvNewL2OOCaller a; EvL2OOVersion c;
                                    EvLog LvlInfo LogConnectedL2OO; EvL2OOGetAbi])
      \/
      (exists a c v p w1 w2,
          L2OutputOracleAddr (Cfg su) = None
          /\ DisputeGameFactoryAddr (Cfg su) = Some a
          /\ e_NewDisputeGameFactoryCaller env a (world s) = (Ok c, w1)
          /\ e_DGFVersion env c w1 = (Ok v, w2)
          /\ e_DGFGetAbi env w2 = (Ok p, world s')
          /\ l2ooContract l = None /\ l2ooABI l = None
          /\ dgfContract l = Some c /\ dgfABI l = Some p
          /\ trace s' = trace s ++ [EvWithCancel; EvNewDGFCaller a; EvDGFVersion c;
                                    EvLog LvlInfo LogConnectedDGF; EvDGFGetAbi])).
Proof.
  apply NewL2OutputSubmitter_ok in Hnew.
  destruct (selectMode_ok _ _ _ _ Hnew) as
    [(a & c & v & p & w1 & w2 & Ha & Hc & Hv & Hp & -> & Ht)
    |(a & c & v & p & w1 & w2 & Ha & Hd & Hc & Hv & Hp & -> & Ht)]; simpl in *.
  - split; [reflexivity|]. left. exists a, c, v, p, w1, w2.
    repeat split; try assumption. rewrite Ht. now rewrite <- app_assoc.
  - split; [reflexivity|]. right. exists a, c, v, p, w1, w2.
    repeat split; try assumption. rewrite Ht. now rewrite <- app_assoc.
Qed.

(** X3: construction stops at the first step that fails.  In registry
    mode a failed caller creation is reported wrapped with the address
    and no version query follows; a failed version query is reported as
    it is and the ABI is not parsed; in every such case the context is
    cancelled.  Factory mode behaves the same way. *)
Theorem construction_fails_fast su s :
  (forall a e w1,
      L2OutputOracleAddr (Cfg su) = Some a ->
      e_NewL2OutputOracleCaller env a (world s) = (Err e, w1) ->
      NewL2OutputSubmitter env su s
      = (Err (ErrWrapped (WrapCreateL2OO a) e),
         mkState w1 (trace s ++ [EvWithCancel; EvNewL2OOCaller a; EvCancel; EvCancel])))
  /\
  (forall a c w1 e w2,
      L2OutputOracleAddr (Cfg su) = Some a ->
      e_NewL2OutputOracleCaller env a (world s) = (Ok c, w1) ->
      e_L2OOVersion env c w1 = (Err e, w2) ->
      NewL2OutputSubmitter env su s
      = (Err e,
         mkState w2 (trace s ++ [EvWithCancel; EvNewL2OOCaller a; EvL2OOVersion c;
                                 EvCancel; EvCancel])))
  /\
  (forall a e w1,
      L2OutputOracleAddr (Cfg su) = None ->
      DisputeGameFactoryAddr (Cfg su) = Some a ->
      e_NewDisputeGameFactoryCaller env a (world s) = (Err e, w1) ->
      NewL2OutputSubmitter env su s
      = (Err (ErrWrapped (WrapCreateDGF a) e),
         mkState w1 (trace s ++ [EvWithCancel; EvNewDGFCaller a; EvCancel; EvCancel])))
  /\
  (forall a c w1 e w2,
      L2OutputOracleAddr (Cfg su) = None ->
      DisputeGameFactoryAddr (Cfg su) = Some a ->
      e_NewDisputeGameFactoryCaller env a (world s) = (Ok c, w1) ->
      e_DGFVersion env c w1 = (Err e, w2) ->
      NewL2OutputSubmitter env su s
      = (Err e,
         mkState w2 (trace s ++ [EvWithCancel; EvNewDGFCaller a; EvDGFVersion c;
                                 EvCancel; EvCancel]))).
Proof.
  repeat split.
  - intros a e w1 Ha Hc.
    unfold NewL2OutputSubmitter, selectMode, newL2OOSubmitter. rewrite Ha.
    step. rewrite Hc. simpl. now rewrite <- !app_assoc.
  - intros a c w1 e w2 Ha Hc Hv.
    unfold NewL2OutputSubmitter, selectMode, newL2OOSubmitter. rewrite Ha.
    step. rewrite Hc. simpl. rewrite Hv. simpl. now rewrite <- !app_assoc.
  - intros a e w1 Ha Hd Hc.
    unfold NewL2OutputSubmitter, selectMode, newDGFSubmitter. rewrite Ha, Hd.
    step. rewrite Hc. simpl. now rewrite <- !app_assoc.
  - intros a c w1 e w2 Ha Hd Hc Hv.
    unfold NewL2OutputSubmitter, selectMode, newDGFSubmitter. rewrite Ha, Hd.
    step. rewrite Hc. simpl. rewrite Hv. simpl. now rewrite <- !app_assoc.
Qed.

(** *** Further facts: the fetchers *)

Lemma FetchCurrentBlockNumber_ok l s n s' :
  FetchCurrentBlockNumber env l s = (Ok n, s') ->
  exists st,
    n = boundary (AllowNonFinalized (cfg l)) st
    /\ trace s' = trace s ++ [EvRollupClient; EvSyncStatus (Ok st)].
Proof.
  unfold FetchCurrentBlockNumber, boundary. step.
  destruct (e_RollupClient env (world s)) as [[h| | |] w1]; simpl; try discriminate.
  destruct (e_SyncStatus env h w1) as [[st| | |] w2]; simpl; try discriminate.
  intros H. exists st.
  destruct (AllowNonFinalized (cfg l)); injection H as <- <-; simpl;
    now rewrite <- app_assoc.
Qed.

Lemma FetchOutput_ok l block s o s' :
  FetchOutput env l block s = (Ok o, s') ->
  trace s' = trace s ++ [EvRollupClient; EvOutputAtBlock block (Ok o)]
  /\ Version o = supportedL2OutputVersion
  /\ l2_Number (BlockRef o) = block.
Proof.
  unfold FetchOutput. step.
  destruct (e_RollupClient env (world s)) as [[h| | |] w1]; simpl; try discriminate.
  destruct (e_OutputAtBlock env h block w1) as [[o'| | |] w2]; simpl; try discriminate.
  destruct (bytes_eqb (Version o') supportedL2OutputVersion) eqn:Ev; simpl;
    try discriminate.
  destruct (l2_Number (BlockRef o') =? block) eqn:En; simpl; try discriminate.
  intros H. injection H as <- <-. simpl. rewrite <- app_assoc.
  repeat split; [now apply bytes_eqb_eq | now apply Z.eqb_eq].
Qed.

(** X5: an output returned by [FetchDGFOutput] is the validated output of
    the boundary block: the call made exactly one sync-status query and
    one output fetch, the fetch asked for the safe head of that status
    (the finalized head without [AllowNonFinalized]), and the output has
    the supported version and that block number. *)
Theorem FetchDGFOutput_boundary_output l s o s'
  (Hrun : FetchDGFOutput env l s = (Ok o, s')) :
  exists st,
    trace s' = trace s ++ [EvRollupClient; EvSyncStatus (Ok st); EvRollupClient;
                           EvOutputAtBlock (boundary (AllowNonFinalized (cfg l)) st) (Ok o)]
    /\ Version o = supportedL2OutputVersion
    /\ l2_Number (BlockRef o) = boundary (AllowNonFinalized (cfg l)) st.
Proof.
  unfold FetchDGFOutput in Hrun. unfold bind at 1 in Hrun.
  destruct (FetchCurrentBlockNumber env l s) as [[n| | |] s1] eqn:Hn; try discriminate.
  destruct (FetchCurrentBlockNumber_ok _ _ _ _ Hn) as (st & -> & Ht1).
  destruct (FetchOutput_ok _ _ _ _ _ Hrun) as (Ht2 & Hv & Hb).
  exists st. repeat split; try assumption.
  rewrite Ht2, Ht1. now rewrite <- app_assoc.
Qed.

(** X6: an output returned by [FetchL2OOOutput] is the validated output
    of the registry's next block, and that block is not in the future: it
    is the registry answer read as a [uint64], it is at most the boundary
    of the sync status queried first, and the output has the supported
    version.  Exactly one output fetch was made. *)
Theorem FetchL2OOOutput_next_checkpoint l s o b s'
  (Hrun : FetchL2OOOutput env l s = (Ok (Some o, b), s')) :
  exists c nextBig st rest,
    l2ooContract l = Some c
    /\ trace s' = trace s ++ [EvNextBlockNumber c (Ok nextBig); EvRollupClient;
                              EvSyncStatus (Ok st); EvRollupClient;
                              EvOutputAtBlock (big_Uint64 nextBig) (Ok o)] ++ rest
    /\ count is_output_fetch rest = 0%nat
    /\ l2_Number (BlockRef o) = big_Uint64 nextBig
    /\ big_Uint64 nextBig <= boundary (AllowNonFinalized (cfg l)) st
    /\ Version o = supportedL2OutputVersion.
Proof.
  unfold FetchL2OOOutput in Hrun.
  destruct (l2ooContract l) as [c|]; [|discriminate].
  unfold bind at 1 in Hrun. unfold wrapErr, call in Hrun.
  destruct (e_NextBlockNumber env c (world s)) as [[nextBig| | |] w1]; simpl in Hrun;
    try discriminate.
  unfold bind at 1 in Hrun.
  destruct (FetchCurrentBlockNumber env l _) as [[cur| | |] s2] eqn:Hc;
    try discriminate.
  destruct (FetchCurrentBlockNumber_ok _ _ _ _ Hc) as (st & -> & Ht1). simpl in Ht1.
  destruct (_ <? _) eqn:Hlt.
  { revert Hrun. step. discriminate. }
  apply Z.ltb_ge in Hlt.
  unfold bind at 1 in Hrun. unfold wrapErr in Hrun.
  destruct (FetchOutput env l (big_Uint64 nextBig) s2) as [[o'| | |] s3] eqn:Ho;
    try discriminate.
  destruct (FetchOutput_ok _ _ _ _ _ Ho) as (Ht2 & Hv & Hb).
  destruct (notReady l o'); revert Hrun; step; intros H; injection H as <- <- <-.
  - exists c, nextBig, st, [EvLog LvlDebug LogNotReady]. simpl.
    repeat split; try assumption.
    rewrite Ht2, Ht1. now rewrite <- !app_assoc.
  - exists c, nextBig, st, []. simpl.
    repeat split; try assumption.
    rewrite Ht2, Ht1. now rewrite <- !app_assoc.
Qed.

(** *** Further facts: the L1-head wait *)

Lemma waitLoop_failure fuel blockNum :
  forall l1head s r s',
    waitLoop env fuel blockNum l1head s = (r, s') ->
    match r with
    | Ok _ => True
    | Err e =>
        (e = ErrDone /\ endsWith (EvSelect SelDone) (trace s'))
        \/ endsWith (EvBlockNumber (Err e)) (trace s')
    | Panic p => endsWith (EvBlockNumber (Panic p)) (trace s')
    | OutOfFuel => True
    end.
Proof.
  induction fuel as [|fuel IH]; intros l1head s r s'; simpl;
    destruct (l1head <=? blockNum).
  - intros H. now injection H as <- <-.
  - intros H. now injection H as <- <-.
  - step. destruct (e_select env (world s)) as [[|] w1].
    + destruct (e_BlockNumber env w1) as [[h1|e|p|] w2] eqn:Hb; simpl.
      * apply IH.
      * intros H. injection H as <- <-. right. apply endsWith_last.
      * intros H. injection H as <- <-. apply endsWith_last.
      * intros H. now injection H as <- <-.
    + intros H. injection H as <- <-. left. split; [reflexivity|]. apply endsWith_last.
  - intros H. now injection H as <- <-.
Qed.

(** X7: the wait for the L1 head can be interrupted and never fails on
    its own account.  When [done] is selected while the head is not yet
    beyond [blockNum], the wait returns the done error at once, without
    asking for the head again.  An error returned by the wait is either
    that done error, right after [done] was selected, or the error the
    transaction manager just returned for the head.  The wait panics only
    if that query does, or if the poll interval is not positive: then the
    ticker cannot be created and the wait panics before any query. *)
Theorem waitForL1Head_interruptible :
  (forall fuel blockNum l1head s w',
      l1head <= blockNum ->
      e_select env (world s) = (SelDone, w') ->
      waitLoop env (S fuel) blockNum l1head s
      = (Err ErrDone,
         mkState w' (trace s ++ [EvLog LvlDebug LogWaitingL1Head; EvSelect SelDone])))
  /\
  (forall fuel l blockNum s e s',
      waitForL1Head env fuel l blockNum s = (Err e, s') ->
      (e = ErrDone /\ endsWith (EvSelect SelDone) (trace s'))
      \/ endsWith (EvBlockNumber (Err e)) (trace s'))
  /\
  (forall fuel l blockNum s p s',
      waitForL1Head env fuel l blockNum s = (Panic p, s') ->
      (0 < PollInterval (cfg l) /\ endsWith (EvBlockNumber (Panic p)) (trace s'))
      \/ (PollInterval (cfg l) <= 0 /\ p = NonPositiveInterval /\ s' = s))
  /\
  (forall fuel l blockNum s,
      PollInterval (cfg l) <= 0 ->
      waitForL1Head env fuel l blockNum s = (Panic NonPositiveInterval, s)).
Proof.
  split; [|split; [|split]].
  - intros fuel blockNum l1head s w' Hle Hsel. simpl.
    apply Z.leb_le in Hle. rewrite Hle. step. rewrite Hsel.
    now rewrite <- app_assoc.
  - intros fuel l blockNum s e s'. unfold waitForL1Head, newTicker.
    destruct (PollInterval (cfg l) <=? 0); [discriminate|]. step.
    destruct (e_BlockNumber env (world s)) as [[h|e0|p|] w1]; simpl; try discriminate.
    + intros H. exact (waitLoop_failure _ _ _ _ _ _ H).
    + intros H. injection H as <- <-. right. apply endsWith_last.
  - intros fuel l blockNum s p s'. unfold waitForL1Head, newTicker.
    destruct (PollInterval (cfg l) <=? 0) eqn:Hd.
    + apply Z.leb_le in Hd. step. intros H. injection H as <- <-. right. now repeat split.
    + apply Z.leb_gt in Hd. step.
      destruct (e_BlockNumber env (world s)) as [[h|e0|p0|] w1]; simpl; try discriminate.
      * intros H. left. split; [exact Hd|]. exact (waitLoop_failure _ _ _ _ _ _ H).
      * intros H. injection H as <- <-. left. split; [exact Hd|]. apply endsWith_last.
  - intros fuel l blockNum s Hd. unfold waitForL1Head, newTicker.
    apply Z.leb_le in Hd. now rewrite Hd.
Qed.

(** *** Further facts: dispatch *)

Lemma forallb_count_zero (p q : Event -> bool) evs :
  forallb p evs = true -> (forall ev, p ev = true -> q ev = false) ->
  count q evs = 0%nat.
Proof.
  intros Hp Hpq. unfold count. induction evs as [|ev evs IH]; simpl in *; [reflexivity|].
  apply andb_true_iff in Hp as [Hev Hp]. rewrite (Hpq ev Hev). now apply IH.
Qed.

Lemma count_cons (p : Event -> bool) ev tr :
  count p (ev :: tr) = ((if p ev then 1 else 0) + count p tr)%nat.
Proof. unfold count. simpl. now destruct (p ev). Qed.

Lemma count_nil (p : Event -> bool) : count p [] = 0%nat.
Proof. reflexivity. Qed.

Ltac counts :=
  repeat (rewrite count_app || rewrite count_cons || rewrite count_nil); simpl.

Lemma forallb_weaken (p q : Event -> bool) evs :
  (forall ev, p ev = true -> q ev = true) -> forallb p evs = true -> forallb q evs = true.
Proof. intros Hpq. rewrite !forallb_forall. auto. Qed.

Lemma wait_event_send_event ev : wait_event ev = true -> send_event ev = true.
Proof. now destruct ev. Qed.

Lemma wait_event_not_send ev : wait_event ev = true -> is_send ev = false.
Proof. now destruct ev. Qed.

Lemma send_event_not_metric ev : send_event ev = true -> is_metric ev = false.
Proof. now destruct ev. Qed.

(** What [dispatch] leaves behind: either the call data could not be
    built and nothing was sent, or exactly one candidate was handed to the
    transaction manager, whose answer is the result. *)
Lemma dispatch_outcome l o s :
  exists evs,
    trace (snd (dispatch env l o s)) = trace s ++ evs
    /\ forallb send_event evs = true
    /\ ((count is_send evs = 0%nat /\ is_Ok (fst (dispatch env l o s)) = false)
        \/ exists pre c,
             evs = pre ++ [EvSend c (fst (dispatch env l o s))]
             /\ count is_send pre = 0%nat
             /\ GasLimit c = 0
             /\ To c = destination l
             /\ (Value c = None <-> DisputeGameFactoryAddr (cfg l) = None)).
Proof.
  unfold dispatch, destination.
  destruct (DisputeGameFactoryAddr (cfg l)) as [dgf|] eqn:Hd.
  - unfold ProposeL2OutputDGFTxData. step.
    destruct (e_InitBonds env (dgfContract l) (DisputeGameType (cfg l)) (world s))
      as [[bond| | |] w1]; simpl;
      try (eexists [_]; split; [reflexivity|]; split; [reflexivity|];
           left; now split).
    destruct (proposeL2OutputDGFTxData env (dgfABI l) (DisputeGameType (cfg l)) o)
      as [data| | |]; simpl;
      try (eexists [_]; split; [reflexivity|]; split; [reflexivity|];
           left; now split).
    match goal with
    | |- context [e_Send env ?c w1] => destruct (e_Send env c w1) as [r w2] eqn:Hs
    end.
    simpl. eexists [_; _]. rewrite <- app_assoc. split; [reflexivity|].
    split; [reflexivity|]. right. eexists [_], _. split; [reflexivity|].
    simpl. repeat split; try reflexivity; intros; discriminate.
  - unfold ProposeL2OutputTxData. step.
    destruct (proposeL2OutputTxData env (l2ooABI l) o) as [data| | |]; simpl;
      try (exists []; rewrite app_nil_r; split; [reflexivity|]; split; [reflexivity|];
           left; now split).
    match goal with
    | |- context [e_Send env ?c (world s)] =>
        destruct (e_Send env c (world s)) as [r w2] eqn:Hs
    end.
    simpl. eexists [_]. split; [reflexivity|].
    split; [reflexivity|]. right. eexists [], _. split; [reflexivity|].
    simpl. repeat split; try reflexivity.
Qed.

(** What [sendTransaction] leaves behind. *)
Lemma sendTransaction_outcome fuel l o s :
  exists evs,
    trace (snd (sendTransaction env fuel l o s)) = trace s ++ evs
    /\ forallb send_event evs = true
    /\ (count is_send evs <= 1)%nat
    /\ (fst (sendTransaction env fuel l o s) = Ok tt ->
        exists pre c rcpt,
          evs = pre ++ [EvSend c (Ok rcpt);
                        if rcpt_Status rcpt =? ReceiptStatusFailed
                        then EvLog LvlError LogReverted
                        else EvLog LvlInfo LogPublished]
          /\ count is_send pre = 0%nat
          /\ GasLimit c = 0
          /\ To c = destination l
          /\ (Value c = None <-> DisputeGameFactoryAddr (cfg l) = None)).
Proof.
  destruct (waitForL1Head_emits env fuel l
              (wrap64 (l1_Number (HeadL1 (Status o)) + 1)) s) as (evs1 & Ht1 & Hp1).
  pose proof (forallb_count_zero _ is_send _ Hp1 wait_event_not_send) as Hc1.
  pose proof (forallb_weaken _ _ _ wait_event_send_event Hp1) as Hq1.
  destruct (waitForL1Head env fuel l _ s) as [r1 s1] eqn:Hw. simpl in Ht1.
  destruct r1 as [[]|e|p|].
  - rewrite (sendTransaction_after_wait env _ _ _ _ _ Hw).
    set (s2 := mkState (world s1) (trace s1 ++ [EvLog LvlInfo LogProposing])).
    destruct (dispatch_outcome l o s2) as (evs2 & Ht2 & Hp2 & Hcase).
    unfold bind. destruct (dispatch env l o s2) as [[rcpt|e|p|] s3]; simpl in *.
    + destruct Hcase as [[_ Hno]|(pre & c & -> & Hpre & Hg & Hto & Hv)];
        [discriminate|].
      set (lg := if rcpt_Status rcpt =? ReceiptStatusFailed
                 then EvLog LvlError LogReverted else EvLog LvlInfo LogPublished).
      assert (snd ((if rcpt_Status rcpt =? ReceiptStatusFailed
                    then emit (W:=W) (EvLog LvlError LogReverted)
                    else emit (EvLog LvlInfo LogPublished)) s3)
              = mkState (world s3) (trace s3 ++ [lg])) as Hlast
          by (subst lg; now destruct (rcpt_Status rcpt =? ReceiptStatusFailed)).
      assert (fst ((if rcpt_Status rcpt =? ReceiptStatusFailed
                    then emit (W:=W) (EvLog LvlError LogReverted)
                    else emit (EvLog LvlInfo LogPublished)) s3) = Ok tt) as Hres
          by (now destruct (rcpt_Status rcpt =? ReceiptStatusFailed)).
      exists (evs1 ++ [EvLog LvlInfo LogProposing] ++ pre ++ [EvSend c (Ok rcpt); lg]).
      rewrite Hlast. simpl. rewrite Ht2, Ht1.
      split; [now rewrite <- !app_assoc|].
      split.
      { rewrite forallb_app, Hq1. simpl. rewrite forallb_app.
        rewrite forallb_app in Hp2.
        apply andb_true_iff in Hp2 as [Hpp _]. rewrite Hpp. simpl.
        subst lg. now destruct (rcpt_Status rcpt =? ReceiptStatusFailed). }
      split.
      { counts. rewrite Hc1, Hpre.
        subst lg. destruct (rcpt_Status rcpt =? ReceiptStatusFailed); simpl; lia. }
      intros _. exists (evs1 ++ [EvLog LvlInfo LogProposing] ++ pre), c, rcpt.
      split; [now rewrite <- !app_assoc|].
      counts. rewrite Hc1, Hpre. split; [lia|]. now split; [|split].
    + exists (evs1 ++ [EvLog LvlInfo LogProposing] ++ evs2).
      rewrite Ht2, Ht1. split; [now rewrite <- !app_assoc|].
      split; [rewrite !forallb_app, Hq1, Hp2; reflexivity|].
      split; [|discriminate].
      destruct Hcase as [[Hz _]|(pre & c & -> & Hpre & _)].
      * counts. rewrite Hc1, Hz. lia.
      * counts. rewrite Hc1, Hpre. lia.
    + exists (evs1 ++ [EvLog LvlInfo LogProposing] ++ evs2).
      rewrite Ht2, Ht1. split; [now rewrite <- !app_assoc|].
      split; [rewrite !forallb_app, Hq1, Hp2; reflexivity|].
      split; [|discriminate].
      destruct Hcase as [[Hz _]|(pre & c & -> & Hpre & _)].
      * counts. rewrite Hc1, Hz. lia.
      * counts. rewrite Hc1, Hpre. lia.
    + exists (evs1 ++ [EvLog LvlInfo LogProposing] ++ evs2).
      rewrite Ht2, Ht1. split; [now rewrite <- !app_assoc|].
      split; [rewrite !forallb_app, Hq1, Hp2; reflexivity|].
      split; [|discriminate].
      destruct Hcase as [[Hz _]|(pre & c & -> & Hpre & _)].
      * counts. rewrite Hc1, Hz. lia.
      * counts. rewrite Hc1, Hpre. lia.
  - rewrite (sendTransaction_wait_failed env _ _ _ _ _ _ Hw eq_refl). simpl.
    exists evs1. repeat split; try assumption; try lia. discriminate.
  - rewrite (sendTransaction_wait_failed env _ _ _ _ _ _ Hw eq_refl). simpl.
    exists evs1. repeat split; try assumption; try lia. discriminate.
  - rewrite (sendTransaction_wait_failed env _ _ _ _ _ _ Hw eq_refl). simpl.
    exists evs1. repeat split; try assumption; try lia. discriminate.
Qed.

(** X8: one call of [sendTransaction] hands at most one transaction to
    the transaction manager, and a successful call exactly one, as its
    last action before the closing log line.  That transaction has gas
    limit 0 (left to the manager); it goes to the factory address when
    one is configured, with a value attached, and to the registry
    address otherwise, without value. *)
Theorem sendTransaction_sends_once fuel l o s :
  (count is_send (trace (snd (sendTransaction env fuel l o s)))
   <= count is_send (trace s) + 1)%nat
  /\ (fst (sendTransaction env fuel l o s) = Ok tt ->
      exists tr c rcpt lg,
        trace (snd (sendTransaction env fuel l o s)) = tr ++ [EvSend c (Ok rcpt); lg]
        /\ count is_send tr = count is_send (trace s)
        /\ is_send lg = false
        /\ GasLimit c = 0
        /\ To c = destination l
        /\ (Value c = None <-> DisputeGameFactoryAddr (cfg l) = None)).
Proof.
  destruct (sendTransaction_outcome fuel l o s) as (evs & Ht & _ & Hc & Hok).
  split.
  - rewrite Ht, count_app. lia.
  - intros Hr. destruct (Hok Hr) as (pre & c & rcpt & -> & Hpre & Hg & Hto & Hv).
    eexists (trace s ++ pre), c, rcpt, _. rewrite Ht.
    split; [now rewrite <- app_assoc|].
    rewrite count_app, Hpre. repeat split; try assumption; try lia; try apply Hv.
    now destruct (rcpt_Status rcpt =? ReceiptStatusFailed).
Qed.

(** X9: in factory mode a failed bond lookup abandons the proposal: once
    the wait is over, [proposeOutput] logs the intention, asks for the
    bond, logs the failure and returns; nothing is packed or sent and no
    metric is recorded. *)
Theorem proposeOutput_bond_failure fuel l o s s1 dgf e w2
  (Hdgf : DisputeGameFactoryAddr (cfg l) = Some dgf)
  (Hwait : waitForL1Head env fuel l (wrap64 (l1_Number (HeadL1 (Status o)) + 1)) s
           = (Ok tt, s1))
  (Hbond : e_InitBonds env (dgfContract l) (DisputeGameType (cfg l)) (world s1)
           = (Err e, w2)) :
  sendTransaction env fuel l o s
  = (Err e, mkState w2 (trace s1 ++ [EvLog LvlInfo LogProposing;
                                     EvInitBonds (dgfContract l) (DisputeGameType (cfg l))]))
  /\ proposeOutput env fuel l o s
     = (Ok tt, mkState w2 (trace s1 ++ [EvLog LvlInfo LogProposing;
                                        EvInitBonds (dgfContract l) (DisputeGameType (cfg l));
                                        EvLog LvlError LogSendFailed])).
Proof.
  assert (sendTransaction env fuel l o s
          = (Err e, mkState w2 (trace s1 ++ [EvLog LvlInfo LogProposing;
                                             EvInitBonds (dgfContract l)
                                               (DisputeGameType (cfg l))]))) as Hs.
  { rewrite (sendTransaction_after_wait env _ _ _ _ _ Hwait).
    unfold dispatch, ProposeL2OutputDGFTxData. rewrite Hdgf. step. rewrite Hbond.
    simpl. now rewrite <- app_assoc. }
  split; [exact Hs|].
  unfold proposeOutput. rewrite Hs. unfold emit. simpl. now rewrite <- app_assoc.
Qed.

(** What [proposeOutput] leaves behind. *)
Lemma proposeOutput_bounded fuel l o : bounded propose_event 1 (proposeOutput env fuel l o).
Proof.
  intros s. unfold proposeOutput.
  destruct (sendTransaction_outcome fuel l o s) as (evs & Ht & Hp & Hc & Hok).
  pose proof (forallb_count_zero _ is_metric _ Hp send_event_not_metric) as Hm.
  assert (forallb propose_event evs = true) as Hq.
  { apply (forallb_weaken send_event); [|exact Hp].
    intros ev Hev. unfold propose_event. now rewrite Hev. }
  destruct (sendTransaction env fuel l o s) as [[[]|e|p|] s1]; simpl in *.
  - destruct (Hok eq_refl) as (pre & c & rcpt & Heq & Hpre & _).
    assert (count is_send evs = 1%nat) as Hone.
    { rewrite Heq. counts. rewrite Hpre.
      now destruct (rcpt_Status rcpt =? ReceiptStatusFailed). }
    exists (evs ++ [EvRecordL2BlocksProposed (BlockRef o)]).
    rewrite Ht. split; [now rewrite <- app_assoc|].
    split; [rewrite forallb_app, Hq; reflexivity|].
    counts. rewrite Hm, Hone. lia.
  - exists (evs ++ [EvLog LvlError LogSendFailed]).
    rewrite Ht. split; [now rewrite <- app_assoc|].
    split; [rewrite forallb_app, Hq; reflexivity|].
    counts. rewrite Hm. lia.
  - exists evs. repeat split; try assumption; lia.
  - exists evs. repeat split; try assumption; lia.
Qed.

(** X10: [proposeOutput] never reports an error to the loop: failures of
    [sendTransaction] end in the log.  One call sends at most one
    transaction, and it records the metric at most once and only when
    it has sent a transaction. *)
Theorem proposeOutput_swallows_errors fuel l o s :
  (forall e, fst (proposeOutput env fuel l o s) <> Err e)
  /\ exists evs,
       trace (snd (proposeOutput env fuel l o s)) = trace s ++ evs
       /\ (count is_metric evs <= count is_send evs <= 1)%nat.
Proof.
  split.
  - intros e. unfold proposeOutput.
    destruct (sendTransaction env fuel l o s) as [[[]|e'|p|] s1]; discriminate.
  - destruct (proposeOutput_bounded fuel l o s) as (evs & Ht & _ & Hs & Hm).
    exists evs. split; [exact Ht | lia].
Qed.

(** *** Further facts: the worker loops *)

Lemma extends_refl (p : Event -> bool) (s : State W) : extends p 0 s s.
Proof. exists []. rewrite app_nil_r. now repeat split. Qed.

Lemma extends_trans (p : Event -> bool) n m (s1 s2 s3 : State W) :
  extends p n s1 s2 -> extends p m s2 s3 -> extends p (n + m) s1 s3.
Proof.
  intros (e1 & Ht1 & Hp1 & Hs1 & Hm1) (e2 & Ht2 & Hp2 & Hs2 & Hm2).
  exists (e1 ++ e2). rewrite Ht2, Ht1, app_assoc, forallb_app, Hp1, Hp2, !count_app.
  repeat split; lia.
Qed.

Lemma extends_weaken (p q : Event -> bool) n m (s s' : State W) :
  (forall ev, p ev = true -> q ev = true) -> (n <= m)%nat ->
  extends p n s s' -> extends q m s s'.
Proof.
  intros Hpq Hnm (evs & Ht & Hp & Hs & Hm). exists evs.
  repeat split; try assumption; try lia. now apply (forallb_weaken p).
Qed.

Lemma bounded_pure {A} p (r : Res A) : bounded p 0 (fun s : State W => (r, s)).
Proof. intros s. apply extends_refl. Qed.

Lemma bounded_weaken {A} (p q : Event -> bool) n m (c : M W A) :
  (forall ev, p ev = true -> q ev = true) -> (n <= m)%nat ->
  bounded p n c -> bounded q m c.
Proof. intros Hpq Hnm Hc s. now apply (extends_weaken p q n m). Qed.

Lemma bounded_of_emitsOnly {A} (p q : Event -> bool) (c : M W A) :
  emitsOnly p c ->
  (forall ev, p ev = true -> q ev = true /\ is_send ev = false /\ is_metric ev = false) ->
  bounded q 0 c.
Proof.
  intros Hc Hpq s. destruct (Hc s) as (evs & Ht & Hp). exists evs.
  split; [exact Ht|]. split; [apply (forallb_weaken p); [apply Hpq | exact Hp]|].
  rewrite (forallb_count_zero p is_send evs Hp), (forallb_count_zero p is_metric evs Hp);
    try (intros ev Hev; now apply Hpq).
  split; lia.
Qed.

Lemma bounded_bind {A B} p n k (m : M W A) (f : A -> M W B) :
  bounded p n m -> (forall a, bounded p k (f a)) -> bounded p (n + k) (bind m f).
Proof.
  intros Hm Hf s. unfold bind. specialize (Hm s).
  destruct (m s) as [[a| | |] s1]; simpl in *;
    try (apply (extends_weaken p p n); [auto | lia | exact Hm]).
  apply (extends_trans p n k s s1); [exact Hm | apply Hf].
Qed.

Lemma bounded_deferred {A} p n (h : M W unit) (m : M W A) :
  bounded p n m -> bounded p 0 h -> bounded p n (deferred h m).
Proof.
  intros Hm Hh s. unfold deferred. specialize (Hm s).
  destruct (m s) as [[a| | |] s1]; simpl in *; try exact Hm;
    (replace n with (n + 0)%nat by lia; apply (extends_trans p n 0 s s1);
     [exact Hm | apply Hh]).
Qed.

Lemma FetchL2OOOutput_emits l : emitsOnly registry_fetch_event (FetchL2OOOutput env l).
Proof.
  unfold FetchL2OOOutput, FetchCurrentBlockNumber, FetchOutput.
  destruct (l2ooContract l) as [c|]; [|auto with further].
  apply emitsOnly_bind; [auto with further|]. intros nextBig.
  apply emitsOnly_bind.
  { apply emitsOnly_bind; [auto with further|]. intros h.
    apply emitsOnly_bind; [auto with further|]. intros st.
    destruct (AllowNonFinalized (cfg l)); auto with further. }
  intros cur. destruct (cur <? _); [auto with further|].
  apply emitsOnly_bind.
  { apply emitsOnly_wrapErr.
    apply emitsOnly_bind; [auto with further|]. intros h.
    apply emitsOnly_bind; [auto with further|]. intros o.
    destruct (negb _); [auto with further|].
    destruct (negb _); auto with further. }
  intros o. destruct (notReady l o); auto with further.
Qed.

Ltac class_inclusion :=
  let ev := fresh "ev" in
  intros ev; destruct ev; simpl in *; intros; try discriminate;
  repeat split; auto using orb_true_r.

Lemma tickL2OO_bounded wf l : bounded registry_loop_event 1 (tickL2OO env wf l).
Proof.
  unfold tickL2OO. change 1%nat with (0 + 1)%nat. apply bounded_bind.
  { apply (bounded_of_emitsOnly is_poll); [auto with further | class_inclusion]. }
  intros [|]; [apply (bounded_weaken registry_loop_event _ 0); auto; apply bounded_pure|].
  intros s.
  pose proof (bounded_of_emitsOnly registry_fetch_event registry_loop_event _
                (FetchL2OOOutput_emits l) ltac:(class_inclusion) s) as Hf.
  destruct (FetchL2OOOutput env l s) as [[[out sp]|e|p|] s1]; simpl in *.
  - destruct sp.
    + assert (bounded registry_loop_event 1
                (proposeOutputPtr env wf l out ;; ret false)) as Hk.
      { change 1%nat with (1 + 0)%nat. apply bounded_bind.
        - destruct out as [o|]; simpl.
          + apply (bounded_weaken propose_event _ 1 1); [|lia|apply proposeOutput_bounded].
            intros ev Hev. unfold registry_loop_event. now rewrite Hev.
          + apply (bounded_weaken registry_loop_event _ 0); auto. apply bounded_pure.
        - intros _. apply bounded_pure. }
      apply (extends_trans _ 0 1 s s1); [exact Hf | apply Hk].
    + apply (extends_weaken registry_loop_event _ 0); auto.
  - apply (extends_trans _ 0 1 s s1); [exact Hf|].
    apply (extends_weaken registry_loop_event _ 0); auto.
    exists [EvLog LvlWarn LogL2OOOutputError]. now repeat split.
  - apply (extends_weaken registry_loop_event _ 0); auto.
  - apply (extends_weaken registry_loop_event _ 0); auto.
Qed.

Lemma select_bounded p :
  (forall sel, p (EvSelect sel) = true) -> bounded p 0 (select env).
Proof.
  intros Hp s. unfold select. destruct (e_select env (world s)) as [sel w'].
  exists [EvSelect sel]. simpl. rewrite Hp. now repeat split.
Qed.

Lemma loopL2OO_body_bounded ticks wf l :
  bounded registry_loop_event ticks (loopL2OO_body env ticks wf l).
Proof.
  induction ticks as [|ticks IH]; simpl; [apply bounded_pure|].
  change (S ticks) with (0 + S ticks)%nat. apply bounded_bind.
  { now apply select_bounded. }
  intros [|].
  - change (S ticks) with (1 + ticks)%nat. apply bounded_bind.
    + apply tickL2OO_bounded.
    + intros [|]; [|exact IH].
      apply (bounded_weaken registry_loop_event _ 0); auto; [lia|apply bounded_pure].
  - apply (bounded_weaken registry_loop_event _ 0); auto; [lia|apply bounded_pure].
Qed.

Lemma bounded_newTicker p d : bounded p 0 (newTicker (W:=W) d).
Proof. unfold newTicker. destruct (d <=? 0); apply bounded_pure. Qed.

Lemma loopL2OO_bounded ticks wf l :
  bounded registry_loop_event ticks (loopL2OO env ticks wf l).
Proof.
  apply bounded_deferred.
  { change ticks with (0 + ticks)%nat at 1. apply bounded_bind;
      [apply bounded_newTicker | intros _; apply loopL2OO_body_bounded]. }
  intros s. exists [EvLog LvlInfo LogLoopL2OOReturning]. now repeat split.
Qed.

Lemma tickDGF_bounded rf wf l :
  bounded (factory_loop_event (OutputRetryInterval (cfg l))) 1 (tickDGF env rf wf l).
Proof.
  unfold tickDGF. change 1%nat with (0 + 1)%nat. apply bounded_bind.
  { apply (bounded_of_emitsOnly (retry_event (OutputRetryInterval (cfg l))));
      [apply retryFetch_emits | class_inclusion]. }
  intros [o|].
  - change 1%nat with (1 + 0)%nat. apply bounded_bind.
    + apply (bounded_weaken propose_event _ 1 1); [|lia|apply proposeOutput_bounded].
      intros ev Hev. unfold factory_loop_event. now rewrite Hev.
    + intros _. apply bounded_pure.
  - apply (bounded_weaken (factory_loop_event (OutputRetryInterval (cfg l))) _ 0); auto.
    apply bounded_pure.
Qed.

Lemma loopDGF_body_bounded ticks rf wf l :
  bounded (factory_loop_event (OutputRetryInterval (cfg l))) ticks
    (loopDGF_body env ticks rf wf l).
Proof.
  induction ticks as [|ticks IH]; simpl; [apply bounded_pure|].
  change (S ticks) with (0 + S ticks)%nat. apply bounded_bind.
  { now apply select_bounded. }
  intros [|].
  - change (S ticks) with (1 + ticks)%nat. apply bounded_bind.
    + apply tickDGF_bounded.
    + intros [|]; [|exact IH].
      apply (bounded_weaken (factory_loop_event (OutputRetryInterval (cfg l))) _ 0);
        auto; [lia|apply bounded_pure].
  - apply (bounded_weaken (factory_loop_event (OutputRetryInterval (cfg l))) _ 0);
      auto; [lia|apply bounded_pure].
Qed.

Lemma loopDGF_bounded ticks rf wf l :
  bounded (factory_loop_event (OutputRetryInterval (cfg l))) ticks
    (loopDGF env ticks rf wf l).
Proof.
  apply bounded_deferred.
  { change ticks with (0 + ticks)%nat at 1. apply bounded_bind;
      [apply bounded_newTicker | intros _; apply loopDGF_body_bounded]. }
  intros s. exists [EvLog LvlInfo LogLoopDGFReturning]. now repeat split.
Qed.

Lemma proposeOutput_noErr fuel l o s e : fst (proposeOutput env fuel l o s) <> Err e.
Proof.
  unfold proposeOutput.
  destruct (sendTransaction env fuel l o s) as [[[]|e'|p|] s1]; discriminate.
Qed.

Lemma tickL2OO_noErr wf l s e : fst (tickL2OO env wf l s) <> Err e.
Proof.
  unfold tickL2OO. unfold bind at 1.
  destruct (pollDone_total env s) as ([|] & s1 & Hp); rewrite Hp; [discriminate|].
  destruct (FetchL2OOOutput env l s1) as [[[out [|]]|e'|p|] s2]; try discriminate.
  unfold bind. destruct out as [o|]; simpl; [|discriminate].
  pose proof (proposeOutput_noErr wf l o s2) as Hn.
  destruct (proposeOutput env wf l o s2) as [[[]|e'|p|] s3]; simpl in *;
    try discriminate.
  exfalso. now apply (Hn e').
Qed.

Lemma tickDGF_noErr rf wf l s e : fst (tickDGF env rf wf l s) <> Err e.
Proof.
  unfold tickDGF. unfold bind at 1.
  pose proof (retryFetch_exits env rf l s) as Hx.
  destruct (retryFetch env rf l s) as [[[o|]|e'|p|] s1]; try discriminate.
  - unfold bind.
    pose proof (proposeOutput_noErr wf l o s1) as Hn.
    destruct (proposeOutput env wf l o s1) as [[[]|e'|p|] s3]; simpl in *;
      try discriminate.
    exfalso. now apply (Hn e').
  - exfalso. exact (Hx _ _ eq_refl).
Qed.

(** A tick asks the loop to return only after polling [done] closed. *)
Lemma tickL2OO_stop wf l s s' :
  tickL2OO env wf l s = (Ok true, s') -> endsWith (EvPollDone true) (trace s').
Proof.
  unfold tickL2OO. unfold bind at 1.
  destruct (pollDone_total env s) as ([|] & s1 & Hp); rewrite Hp.
  - intros H. injection H as <-. exists (trace s). now apply pollDone_trace with env.
  - destruct (FetchL2OOOutput env l s1) as [[[out [|]]|e'|p|] s2]; try discriminate.
    unfold bind.
    destruct (proposeOutputPtr env wf l out s2) as [[[]|e'|p|] s3]; discriminate.
Qed.

Lemma tickDGF_stop rf wf l s s' :
  tickDGF env rf wf l s = (Ok true, s') -> endsWith (EvPollDone true) (trace s').
Proof.
  unfold tickDGF. unfold bind at 1.
  pose proof (retryFetch_exits env rf l s) as Hx.
  destruct (retryFetch env rf l s) as [[[o|]|e'|p|] s1]; try discriminate.
  - unfold bind.
    destruct (proposeOutput env wf l o s1) as [[[]|e'|p|] s3]; discriminate.
  - intros H. injection H as <-. exact (Hx _ _ eq_refl).
Qed.

Lemma select_run s : exists sel s1,
  select env s = (Ok sel, s1) /\ trace s1 = trace s ++ [EvSelect sel].
Proof.
  unfold select. destruct (e_select env (world s)) as [sel w']. now eexists _, _.
Qed.

Lemma loopL2OO_body_tick ticks wf l s s1 :
  select env s = (Ok SelTick, s1) ->
  loopL2OO_body env (S ticks) wf l s
  = match tickL2OO env wf l s1 with
    | (Ok true, s2) => (Ok tt, s2)
    | (Ok false, s2) => loopL2OO_body env ticks wf l s2
    | (Err e, s2) => (Err e, s2)
    | (Panic p, s2) => (Panic p, s2)
    | (OutOfFuel, s2) => (OutOfFuel, s2)
    end.
Proof.
  intros Hs. simpl. unfold bind at 1. rewrite Hs. unfold bind.
  now destruct (tickL2OO env wf l s1) as [[[|]| | |] s2].
Qed.

Lemma loopL2OO_body_done ticks wf l s s1 :
  select env s = (Ok SelDone, s1) ->
  loopL2OO_body env (S ticks) wf l s = (Ok tt, s1).
Proof. intros Hs. simpl. unfold bind at 1. now rewrite Hs. Qed.

Lemma loopDGF_body_tick ticks rf wf l s s1 :
  select env s = (Ok SelTick, s1) ->
  loopDGF_body env (S ticks) rf wf l s
  = match tickDGF env rf wf l s1 with
    | (Ok true, s2) => (Ok tt, s2)
    | (Ok false, s2) => loopDGF_body env ticks rf wf l s2
    | (Err e, s2) => (Err e, s2)
    | (Panic p, s2) => (Panic p, s2)
    | (OutOfFuel, s2) => (OutOfFuel, s2)
    end.
Proof.
  intros Hs. simpl. unfold bind at 1. rewrite Hs. unfold bind.
  now destruct (tickDGF env rf wf l s1) as [[[|]| | |] s2].
Qed.

Lemma loopDGF_body_done ticks rf wf l s s1 :
  select env s = (Ok SelDone, s1) ->
  loopDGF_body env (S ticks) rf wf l s = (Ok tt, s1).
Proof. intros Hs. simpl. unfold bind at 1. now rewrite Hs. Qed.

(** A loop body never returns an error, and returns only on shutdown. *)
Lemma loopL2OO_body_run ticks wf l :
  forall s r s',
    loopL2OO_body env ticks wf l s = (r, s') ->
    (forall e, r <> Err e)
    /\ (r = Ok tt ->
        endsWith (EvSelect SelDone) (trace s') \/ endsWith (EvPollDone true) (trace s')).
Proof.
  induction ticks as [|ticks IH]; intros s r s' Hrun.
  - simpl in Hrun. injection Hrun as <- <-. split; discriminate.
  - destruct (select_run s) as ([|] & s1 & Hs & Ht).
    + rewrite (loopL2OO_body_tick _ _ _ _ _ Hs) in Hrun.
      pose proof (tickL2OO_noErr wf l s1) as Hn.
      pose proof (tickL2OO_stop wf l s1) as Hstop.
      destruct (tickL2OO env wf l s1) as [[[|]|e'|p|] s2]; simpl in *.
      * injection Hrun as <- <-. split; [discriminate|]. intros _. right.
        now apply Hstop.
      * now apply IH with s2.
      * exfalso. now apply (Hn e').
      * injection Hrun as <- <-. split; discriminate.
      * injection Hrun as <- <-. split; discriminate.
    + rewrite (loopL2OO_body_done _ _ _ _ _ Hs) in Hrun. injection Hrun as <- <-.
      split; [discriminate|]. intros _. left. exists (trace s). exact Ht.
Qed.

Lemma loopDGF_body_run ticks rf wf l :
  forall s r s',
    loopDGF_body env ticks rf wf l s = (r, s') ->
    (forall e, r <> Err e)
    /\ (r = Ok tt ->
        endsWith (EvSelect SelDone) (trace s') \/ endsWith (EvPollDone true) (trace s')).
Proof.
  induction ticks as [|ticks IH]; intros s r s' Hrun.
  - simpl in Hrun. injection Hrun as <- <-. split; discriminate.
  - destruct (select_run s) as ([|] & s1 & Hs & Ht).
    + rewrite (loopDGF_body_tick _ _ _ _ _ _ Hs) in Hrun.
      pose proof (tickDGF_noErr rf wf l s1) as Hn.
      pose proof (tickDGF_stop rf wf l s1) as Hstop.
      destruct (tickDGF env rf wf l s1) as [[[|]|e'|p|] s2]; simpl in *.
      * injection Hrun as <- <-. split; [discriminate|]. intros _. right.
        now apply Hstop.
      * now apply IH with s2.
      * exfalso. now apply (Hn e').
      * injection Hrun as <- <-. split; discriminate.
      * injection Hrun as <- <-. split; discriminate.
    + rewrite (loopDGF_body_done _ _ _ _ _ _ Hs) in Hrun. injection Hrun as <- <-.
      split; [discriminate|]. intros _. left. exists (trace s). exact Ht.
Qed.

(** A loop that cannot create its ticker panics before doing anything. *)
Lemma ticker_then {A} d (m : M W A) s :
  (newTicker d ;; m) s = if d <=? 0 then (Panic NonPositiveInterval, s) else m s.
Proof. unfold newTicker, bind. now destruct (d <=? 0). Qed.

Lemma loopL2OO_noErr ticks wf l s e : fst (loopL2OO env ticks wf l s) <> Err e.
Proof.
  unfold loopL2OO, deferred. rewrite ticker_then.
  destruct (PollInterval (cfg l) <=? 0); [discriminate|].
  destruct (loopL2OO_body env ticks wf l s) as [r s1] eqn:Hb.
  destruct (loopL2OO_body_run _ _ _ _ _ _ Hb) as [Hn _].
  destruct r as [[]|e'|p|]; simpl; try discriminate.
  exfalso. now apply (Hn e').
Qed.

Lemma loopDGF_noErr ticks rf wf l s e : fst (loopDGF env ticks rf wf l s) <> Err e.
Proof.
  unfold loopDGF, deferred. rewrite ticker_then.
  destruct (ProposalInterval (cfg l) <=? 0); [discriminate|].
  destruct (loopDGF_body env ticks rf wf l s) as [r s1] eqn:Hb.
  destruct (loopDGF_body_run _ _ _ _ _ _ _ Hb) as [Hn _].
  destruct r as [[]|e'|p|]; simpl; try discriminate.
  exfalso. now apply (Hn e').
Qed.

Lemma registry_loop_worker d ev : registry_loop_event ev = true -> worker_event d ev = true.
Proof. intros H. unfold worker_event. now rewrite H. Qed.

Lemma factory_loop_worker d ev : factory_loop_event d ev = true -> worker_event d ev = true.
Proof. intros H. unfold worker_event. rewrite H. now rewrite orb_true_r. Qed.

Lemma waitNodeSync_bounded d : bounded (worker_event d) 0 (waitNodeSync env).
Proof.
  intros s. unfold waitNodeSync. step.
  destruct (e_BlockNumber env (world s)) as [[h| | |] w1]; simpl;
    try (eexists; split; [simpl; rewrite <- ?app_assoc; reflexivity|];
         now repeat split).
  destruct (e_RollupClient env w1) as [[c| | |] w2]; simpl;
    try (eexists; split; [simpl; rewrite <- ?app_assoc; reflexivity|];
         now repeat split).
  destruct (e_WaitRollupSync env c h w2) as [r w3]. simpl.
  eexists; split; [simpl; rewrite <- ?app_assoc; reflexivity|]. now repeat split.
Qed.

(** The loop of the driver's mode, as the worker runs it. *)
Lemma modeLoop_run ticks rf wf l s :
  let X := match dgfContract l with
           | None => loopL2OO env ticks wf l s
           | Some _ => loopDGF env ticks rf wf l s
           end in
  extends (worker_event (OutputRetryInterval (cfg l))) ticks s (snd X)
  /\ forall e, fst X <> Err e.
Proof.
  destruct (dgfContract l); simpl; split.
  - apply (extends_weaken (factory_loop_event (OutputRetryInterval (cfg l))) _ ticks);
      [apply factory_loop_worker | lia | apply loopDGF_bounded].
  - intros e. apply loopDGF_noErr.
  - apply (extends_weaken registry_loop_event _ ticks);
      [apply registry_loop_worker | lia | apply loopL2OO_bounded].
  - intros e. apply loopL2OO_noErr.
Qed.

(** What the worker leaves behind: events of the worker's kinds, then the
    deferred [wg.Done()] unless it is still running. *)
Lemma loop_outcome ticks rf wf l s :
  exists evs,
    forallb (worker_event (OutputRetryInterval (cfg l))) evs = true
    /\ (count is_send evs <= ticks)%nat
    /\ (count is_metric evs <= count is_send evs)%nat
    /\ (forall e, fst (loop env ticks rf wf l s) <> Err e)
    /\ ((fst (loop env ticks rf wf l s) = OutOfFuel
         /\ trace (snd (loop env ticks rf wf l s)) = trace s ++ evs)
        \/ (fst (loop env ticks rf wf l s) <> OutOfFuel
            /\ trace (snd (loop env ticks rf wf l s)) = trace s ++ evs ++ [EvWgDone])).
Proof.
  set (d := OutputRetryInterval (cfg l)).
  assert (forall s0 s1,
             extends (worker_event d) 0 s0 s1 ->
             let X := match dgfContract l with
                      | None => loopL2OO env ticks wf l s1
                      | Some _ => loopDGF env ticks rf wf l s1
                      end in
             exists evs,
               forallb (worker_event d) evs = true
               /\ (count is_send evs <= ticks)%nat
               /\ (count is_metric evs <= count is_send evs)%nat
               /\ (forall e, fst X <> Err e)
               /\ trace (snd X) = trace s0 ++ evs) as Hmode.
  { intros s0 s1 H01 X. destruct (modeLoop_run ticks rf wf l s1) as [Hext Hn].
    fold X in Hext, Hn.
    destruct (extends_trans _ _ _ _ _ _ H01 Hext) as (evs & Ht & Hp & Hs & Hm).
    exists evs. repeat split; try assumption. }
  unfold loop, deferred. fold d.
  destruct (WaitNodeSync (cfg l)).
  - pose proof (waitNodeSync_bounded d s) as Hsync.
    destruct (waitNodeSync env s) as [[[]|e|p|] s1]; simpl in Hsync.
    + destruct (Hmode s s1 Hsync) as (evs & Hp & Hs & Hm & Hn & Ht).
      destruct (match dgfContract l with
                | None => loopL2OO env ticks wf l s1
                | Some _ => loopDGF env ticks rf wf l s1
                end) as [r s2].
      simpl in *. exists evs. repeat split; try assumption;
        destruct r as [[]|e|p|]; simpl; try discriminate;
        try (exfalso; now apply (Hn e));
        try (right; split; [discriminate|]; rewrite Ht; now rewrite app_assoc).
      left. now split.
    + destruct Hsync as (evs & Ht & Hp & Hs & Hm). simpl.
      exists (evs ++ [EvLog LvlError LogNodeSyncError]).
      split; [rewrite forallb_app, Hp; reflexivity|].
      counts. repeat split; try lia; try discriminate.
      right. split; [discriminate|]. rewrite Ht. now rewrite <- !app_assoc.
    + destruct Hsync as (evs & Ht & Hp & Hs & Hm). simpl.
      exists evs. repeat split; try assumption; try lia; try discriminate.
      right. split; [discriminate|]. rewrite Ht. now rewrite <- !app_assoc.
    + destruct Hsync as (evs & Ht & Hp & Hs & Hm). simpl.
      exists evs. repeat split; try assumption; try lia; try discriminate.
      left. now split.
  - destruct (Hmode s s (extends_refl _ s)) as (evs & Hp & Hs & Hm & Hn & Ht).
    destruct (match dgfContract l with
              | None => loopL2OO env ticks wf l s
              | Some _ => loopDGF env ticks rf wf l s
              end) as [r s2].
    simpl in *. exists evs. repeat split; try assumption;
      destruct r as [[]|e|p|]; simpl; try discriminate;
      try (exfalso; now apply (Hn e));
      try (right; split; [discriminate|]; rewrite Ht; now rewrite app_assoc).
    left. now split.
Qed.

Lemma worker_event_not_wgdone d ev : worker_event d ev = true -> is_wgdone ev = false.
Proof. now destruct ev. Qed.

Lemma registry_loop_never_sleeps ev : registry_loop_event ev = true -> is_sleep ev = false.
Proof. now destruct ev. Qed.

Lemma factory_loop_never_asks_registry d ev :
  factory_loop_event d ev = true -> is_registry_query ev = false.
Proof. now destruct ev. Qed.

Lemma factory_loop_not_registry d ev :
  factory_loop_event d ev = true -> not_registry_query ev = true.
Proof. now destruct ev. Qed.

Lemma waitNodeSync_no_registry : emitsOnly not_registry_query (waitNodeSync env).
Proof.
  intros s. unfold waitNodeSync. step.
  destruct (e_BlockNumber env (world s)) as [[h| | |] w1]; simpl;
    try (eexists; split; [simpl; rewrite <- ?app_assoc; reflexivity|]; reflexivity).
  destruct (e_RollupClient env w1) as [[c| | |] w2]; simpl;
    try (eexists; split; [simpl; rewrite <- ?app_assoc; reflexivity|]; reflexivity).
  destruct (e_WaitRollupSync env c h w2) as [r w3]. simpl.
  eexists; split; [simpl; rewrite <- ?app_assoc; reflexivity|]. reflexivity.
Qed.

(** The worker of a driver that holds a factory handle never asks the
    registry anything. *)
Lemma factory_worker_no_registry ticks rf wf l c :
  dgfContract l = Some c -> emitsOnly not_registry_query (loop env ticks rf wf l).
Proof.
  intros Hd s. unfold loop, deferred. rewrite Hd.
  assert (forall t, exists evs,
             trace (snd (loopDGF env ticks rf wf l t)) = trace t ++ evs
             /\ forallb not_registry_query evs = true) as HL.
  { intros t. destruct (loopDGF_bounded ticks rf wf l t) as (evs & Ht & Hp & _).
    exists evs. split; [exact Ht|].
    apply (forallb_weaken _ _ _ (factory_loop_not_registry _) Hp). }
  destruct (WaitNodeSync (cfg l)).
  - destruct (waitNodeSync_no_registry s) as (e1 & Ht1 & Hp1).
    destruct (waitNodeSync env s) as [[[]|e|p|] s1]; simpl in *.
    + destruct (HL s1) as (e2 & Ht2 & Hp2).
      destruct (loopDGF env ticks rf wf l s1) as [[[]|e|p|] s2]; simpl in *;
        try (exists (e1 ++ e2 ++ [EvWgDone]); rewrite Ht2, Ht1;
             split; [now rewrite <- !app_assoc|];
             rewrite !forallb_app, Hp1, Hp2; reflexivity).
      exists (e1 ++ e2). rewrite Ht2, Ht1.
      split; [now rewrite <- !app_assoc|]. now rewrite forallb_app, Hp1, Hp2.
    + exists (e1 ++ [EvLog LvlError LogNodeSyncError; EvWgDone]). rewrite Ht1.
      split; [now rewrite <- !app_assoc|]. rewrite forallb_app, Hp1. reflexivity.
    + exists (e1 ++ [EvWgDone]). rewrite Ht1.
      split; [now rewrite <- !app_assoc|]. rewrite forallb_app, Hp1. reflexivity.
    + exists e1. now split.
  - destruct (HL s) as (e2 & Ht2 & Hp2).
    destruct (loopDGF env ticks rf wf l s) as [[[]|e|p|] s2]; simpl in *;
      try (exists (e2 ++ [EvWgDone]); rewrite Ht2;
           split; [now rewrite <- !app_assoc|];
           rewrite !forallb_app, Hp2; reflexivity).
    exists e2. now split.
Qed.

(** X4: a driver constructed without a registry address is a factory-mode
    driver.  [FetchL2OOOutput] refuses to work on it, with the not-set
    error and without consulting any collaborator.  Its worker never asks
    the registry for its next block, and the loop it runs is [loopDGF]:
    from the start when no node-sync wait is configured, and from the
    state the wait leaves when one is configured and succeeds. *)
Theorem factory_driver_has_no_registry su s l s'
  (Hcfg : L2OutputOracleAddr (Cfg su) = None)
  (Hnew : NewL2OutputSubmitter env su s = (Ok (Some l), s')) :
  (forall t, FetchL2OOOutput env l t = (Err ErrL2OONotSet, t))
  /\ (forall ticks rf wf t,
         count is_registry_query (trace (snd (loop env ticks rf wf l t)))
         = count is_registry_query (trace t))
  /\ (forall ticks rf wf t,
         WaitNodeSync (Cfg su) = false ->
         loop env ticks rf wf l t
         = deferred (emit EvWgDone) (loopDGF env ticks rf wf l) t)
  /\ (forall ticks rf wf t t1,
         WaitNodeSync (Cfg su) = true ->
         waitNodeSync env t = (Ok tt, t1) ->
         loop env ticks rf wf l t
         = deferred (emit EvWgDone) (loopDGF env ticks rf wf l) t1).
Proof.
  apply NewL2OutputSubmitter_ok in Hnew.
  destruct (selectMode_ok _ _ _ _ Hnew) as
    [(a & c & v & p & w1 & w2 & Ha & _)
    |(a & c & v & p & w1 & w2 & _ & _ & _ & _ & _ & -> & _)]; [congruence|].
  split; [|split; [|split]].
  - intros t. reflexivity.
  - intros ticks rf wf t.
    apply emitsOnly_count with (p := not_registry_query).
    + now apply factory_worker_no_registry with c.
    + intros ev. unfold not_registry_query. now destruct (is_registry_query ev).
  - intros ticks rf wf t Hns. unfold loop, cfg. simpl. now rewrite Hns.
  - intros ticks rf wf t t1 Hns Hsync. unfold loop, deferred, cfg. simpl.
    now rewrite Hns, Hsync.
Qed.

(** X11: the worker sends at most one proposal per tick of its loop: in
    any run of [loop] that saw at most [ticks] selections, at most
    [ticks] transactions were sent and no more metrics were recorded
    than transactions sent; and the worker never ends with an error,
    since failures of fetching and sending are only logged. *)
Theorem worker_one_proposal_per_tick ticks rf wf l s :
  (forall e, fst (loop env ticks rf wf l s) <> Err e)
  /\ exists evs,
       trace (snd (loop env ticks rf wf l s)) = trace s ++ evs
       /\ (count is_metric evs <= count is_send evs <= ticks)%nat.
Proof.
  destruct (loop_outcome ticks rf wf l s) as (evs & _ & Hs & Hm & Hn & [[_ Ht]|[_ Ht]]).
  - split; [exact Hn|]. exists evs. split; [exact Ht | lia].
  - split; [exact Hn|]. exists (evs ++ [EvWgDone]). split; [exact Ht|].
    counts. lia.
Qed.

(** X12: each loop returns only on shutdown: when [loopL2OO] or [loopDGF]
    returns, the last thing it did before its closing log line was to
    select the [done] channel or to find it closed in a poll. *)
Theorem loops_return_on_shutdown :
  (forall ticks wf l s s',
      loopL2OO env ticks wf l s = (Ok tt, s') ->
      exists tr ev,
        trace s' = tr ++ [ev; EvLog LvlInfo LogLoopL2OOReturning]
        /\ (ev = EvSelect SelDone \/ ev = EvPollDone true))
  /\
  (forall ticks rf wf l s s',
      loopDGF env ticks rf wf l s = (Ok tt, s') ->
      exists tr ev,
        trace s' = tr ++ [ev; EvLog LvlInfo LogLoopDGFReturning]
        /\ (ev = EvSelect SelDone \/ ev = EvPollDone true)).
Proof.
  split.
  - intros ticks wf l s s'. unfold loopL2OO, deferred. rewrite ticker_then.
    destruct (PollInterval (cfg l) <=? 0); [discriminate|].
    destruct (loopL2OO_body env ticks wf l s) as [r s1] eqn:Hb.
    destruct (loopL2OO_body_run _ _ _ _ _ _ Hb) as [_ Hok].
    destruct r as [[]|e|p|]; try discriminate.
    intros H. injection H as <-. simpl.
    destruct (Hok eq_refl) as [[tr Ht]|[tr Ht]]; rewrite Ht, <- app_assoc;
      eexists tr, _; (split; [reflexivity|]); auto.
  - intros ticks rf wf l s s'. unfold loopDGF, deferred. rewrite ticker_then.
    destruct (ProposalInterval (cfg l) <=? 0); [discriminate|].
    destruct (loopDGF_body env ticks rf wf l s) as [r s1] eqn:Hb.
    destruct (loopDGF_body_run _ _ _ _ _ _ _ Hb) as [_ Hok].
    destruct r as [[]|e|p|]; try discriminate.
    intros H. injection H as <-. simpl.
    destruct (Hok eq_refl) as [[tr Ht]|[tr Ht]]; rewrite Ht, <- app_assoc;
      eexists tr, _; (split; [reflexivity|]); auto.
Qed.

(** X13: the worker releases the wait group exactly once, as the last
    thing it does: whenever [loop] ends, by returning or by a panic, its
    deferred [wg.Done()] has run once and closes the trace; while it is
    still running, [wg.Done()] has not run. *)
Theorem loop_releases_waitgroup ticks rf wf l s :
  (fst (loop env ticks rf wf l s) <> OutOfFuel ->
   endsWith EvWgDone (trace (snd (loop env ticks rf wf l s)))
   /\ count is_wgdone (trace (snd (loop env ticks rf wf l s)))
      = (count is_wgdone (trace s) + 1)%nat)
  /\ (fst (loop env ticks rf wf l s) = OutOfFuel ->
      count is_wgdone (trace (snd (loop env ticks rf wf l s)))
      = count is_wgdone (trace s)).
Proof.
  destruct (loop_outcome ticks rf wf l s) as (evs & Hp & _ & _ & _ & Hcase).
  pose proof (forallb_count_zero _ is_wgdone _ Hp
                (worker_event_not_wgdone (OutputRetryInterval (cfg l)))) as Hz.
  destruct Hcase as [[Hr Ht]|[Hr Ht]]; split; intros H; try congruence.
  - rewrite Ht. counts. lia.
  - rewrite Ht. split.
    + exists (trace s ++ evs). now rewrite app_assoc.
    + counts. lia.
Qed.

(** X14: each loop keeps to its mode.  [loopL2OO] never sleeps: a failed
    fetch waits for the next tick.  [loopDGF] never asks the registry
    for its next block number, and whatever it adds to the trace is an
    event of the factory loop, whose sleeps all last the configured
    retry interval. *)
Theorem loops_keep_to_their_mode :
  (forall ticks wf l s,
      count is_sleep (trace (snd (loopL2OO env ticks wf l s))) = count is_sleep (trace s))
  /\
  (forall ticks rf wf l s,
      count is_registry_query (trace (snd (loopDGF env ticks rf wf l s)))
      = count is_registry_query (trace s)
      /\ exists evs,
           trace (snd (loopDGF env ticks rf wf l s)) = trace s ++ evs
           /\ forallb (factory_loop_event (OutputRetryInterval (cfg l))) evs = true).
Proof.
  split.
  - intros ticks wf l s.
    destruct (loopL2OO_bounded ticks wf l s) as (evs & Ht & Hp & _).
    rewrite Ht, count_app, (forallb_count_zero _ is_sleep _ Hp registry_loop_never_sleeps).
    lia.
  - intros ticks rf wf l s.
    destruct (loopDGF_bounded ticks rf wf l s) as (evs & Ht & Hp & _).
    split.
    + rewrite Ht, count_app,
        (forallb_count_zero _ is_registry_query _ Hp
           (factory_loop_never_asks_registry (OutputRetryInterval (cfg l)))).
      lia.
    + now exists evs.
Qed.

Lemma registry_fetch_not_send ev : registry_fetch_event ev = true -> is_send ev = false.
Proof. now destruct ev. Qed.

Lemma registry_fetch_not_metric ev : registry_fetch_event ev = true -> is_metric ev = false.
Proof. now destruct ev. Qed.

(** X17: a tick of [loopL2OO] that cannot propose costs nothing else.
    When [done] is open and [FetchL2OOOutput] fails, or answers that the
    output should not be proposed, the tick sends no transaction and
    records no metric, and the loop carries on to the next tick; the
    failure is only logged. *)
Theorem tickL2OO_skips wf l s s1 r s2
  (Hpoll : pollDone env s = (Ok false, s1))
  (Hfetch : FetchL2OOOutput env l s1 = (r, s2))
  (Hskip : (exists e, r = Err e) \/ (exists out, r = Ok (out, false))) :
  fst (tickL2OO env wf l s) = Ok false
  /\ count is_send (trace (snd (tickL2OO env wf l s))) = count is_send (trace s)
  /\ count is_metric (trace (snd (tickL2OO env wf l s))) = count is_metric (trace s)
  /\ ((exists e, r = Err e) ->
      trace (snd (tickL2OO env wf l s)) = trace s2 ++ [EvLog LvlWarn LogL2OOOutputError]).
Proof.
  pose proof (emitsOnly_count registry_fetch_event is_send _ s1
                (FetchL2OOOutput_emits l) registry_fetch_not_send) as Hs.
  pose proof (emitsOnly_count registry_fetch_event is_metric _ s1
                (FetchL2OOOutput_emits l) registry_fetch_not_metric) as Hm.
  rewrite Hfetch in Hs, Hm. simpl in Hs, Hm.
  rewrite (pollDone_trace env _ _ _ Hpoll) in Hs, Hm.
  rewrite count_app in Hs, Hm.
  change (count is_send [EvPollDone false]) with 0%nat in Hs.
  change (count is_metric [EvPollDone false]) with 0%nat in Hm.
  assert (tickL2OO env wf l s
          = match r with
            | Ok (output, true) => (proposeOutputPtr env wf l output ;; ret false) s2
            | Ok (output, false) => (Ok false, s2)
            | Err _ => (emit (EvLog LvlWarn LogL2OOOutputError) ;; ret false) s2
            | Panic p => (Panic p, s2)
            | OutOfFuel => (OutOfFuel, s2)
            end) as Htick.
  { unfold tickL2OO. unfold bind at 1. rewrite Hpoll. cbv iota beta.
    now rewrite Hfetch. }
  rewrite Htick.
  destruct Hskip as [[e ->]|[out ->]]; simpl.
  - counts. repeat split; try lia.
  - repeat split; try lia. intros [e He]. discriminate.
Qed.

(** X18: when the driver is configured to wait for the node to sync and
    that wait fails, the worker logs the error and exits at once: it never
    enters a loop, so it selects, polls, fetches and sends nothing, and
    its deferred [wg.Done()] runs. *)
Theorem loop_exits_on_sync_failure ticks rf wf l s e s1
  (Hcfg : WaitNodeSync (cfg l) = true)
  (Hsync : waitNodeSync env s = (Err e, s1)) :
  loop env ticks rf wf l s
  = (Ok tt, mkState (world s1) (trace s1 ++ [EvLog LvlError LogNodeSyncError; EvWgDone]))
  /\ count is_send (trace (snd (loop env ticks rf wf l s))) = count is_send (trace s).
Proof.
  assert (loop env ticks rf wf l s
          = (Ok tt, mkState (world s1)
                      (trace s1 ++ [EvLog LvlError LogNodeSyncError; EvWgDone]))) as Hrun.
  { unfold loop, deferred. rewrite Hcfg, Hsync. unfold emit. simpl.
    now rewrite <- app_assoc. }
  split; [exact Hrun|]. rewrite Hrun. simpl.
  destruct (waitNodeSync_bounded 0 s) as (evs & Ht & Hp & Hs & _).
  rewrite Hsync in Ht. simpl in Ht. rewrite Ht. counts. lia.
Qed.

End FurtherFacts.

(** ** Further facts: the lifecycle *)

Section FurtherLifecycle.

Import Lifecycle.

Lemma Stop_ok_state exits s :
  fst (StopL2OutputSubmitting exits s) = Ok tt ->
  running s = true
  /\ done_closed s = false
  /\ running (snd (StopL2OutputSubmitting exits s)) = false
  /\ wg (snd (StopL2OutputSubmitting exits s)) = 0%nat
  /\ cancelled (snd (StopL2OutputSubmitting exits s)) = true
  /\ done_closed (snd (StopL2OutputSubmitting exits s)) = true
  /\ spawned (snd (StopL2OutputSubmitting exits s)) = spawned s.
Proof.
  unfold StopL2OutputSubmitting.
  destruct (running s) eqn:Hr; simpl; [|discriminate].
  destruct (done_closed s) eqn:Hd; [discriminate|].
  match goal with |- context [wg_Wait exits ?t] =>
    destruct (wg_Wait_returns exits t) as (_ & _ & H3 & H4 & H5 & H6 & H7) end.
  intros Hok. simpl in *. repeat split; auto.
Qed.

Lemma Stop_err_state exits s e :
  fst (StopL2OutputSubmitting exits s) = Err e ->
  e = ErrProposerNotRunning /\ running s = false
  /\ snd (StopL2OutputSubmitting exits s) = s.
Proof.
  unfold StopL2OutputSubmitting.
  destruct (running s) eqn:Hr; simpl.
  - destruct (done_closed s) eqn:Hd; [discriminate|].
    match goal with |- context [wg_Wait exits ?t] =>
      destruct (wg_Wait_returns exits t) as (_ & [H|H] & _) end;
      rewrite H; discriminate.
  - intros H. injection H as <-. now repeat split.
Qed.

(** X15: [StopL2OutputSubmittingIfRunning] never reports an error, and it
    is idempotent: once it has returned, calling it again succeeds and
    changes nothing. *)
Theorem StopIfRunning_idempotent exits exits' s :
  (forall e, fst (StopL2OutputSubmittingIfRunning exits s) <> Err e)
  /\ (fst (StopL2OutputSubmittingIfRunning exits s) = Ok tt ->
      StopL2OutputSubmittingIfRunning exits'
        (snd (StopL2OutputSubmittingIfRunning exits s))
      = (Ok tt, snd (StopL2OutputSubmittingIfRunning exits s))).
Proof.
  assert (forall k t, running t = false ->
                      StopL2OutputSubmittingIfRunning k t = (Ok tt, t)) as Hidle.
  { intros k t Ht. unfold StopL2OutputSubmittingIfRunning, StopL2OutputSubmitting.
    now rewrite Ht. }
  unfold StopL2OutputSubmittingIfRunning at 1 2 4 5.
  pose proof (Stop_ok_state exits s) as Hok.
  pose proof (Stop_err_state exits s) as Herr.
  destruct (StopL2OutputSubmitting exits s) as [[[]|e|p|] s1]; simpl in *.
  - split; [discriminate|]. intros _. apply Hidle. now apply Hok.
  - destruct (Herr e eq_refl) as (-> & Hr & ->). simpl.
    split; [discriminate|]. intros _. now apply Hidle.
  - split; discriminate.
  - split; discriminate.
Qed.

Lemma runOp_singleWorker op s s' :
  singleWorker s -> runOp op s = Some s' -> singleWorker s'.
Proof.
  intros (H1 & H2 & H3 & H4). destruct op as [|exits|exits|]; simpl.
  - unfold StartL2OutputSubmitting. destruct (running s) eqn:Hr; simpl;
      intros H; injection H as <-; unfold singleWorker; simpl.
    + repeat split; auto. congruence.
    + rewrite (H2 eq_refl). repeat split; auto; try lia; discriminate.
  - pose proof (Stop_ok_state exits s) as Hok.
    pose proof (Stop_err_state exits s) as Herr.
    destruct (StopL2OutputSubmitting exits s) as [[[]|e|p|] s1]; simpl in *;
      try discriminate; intros H; injection H as <-.
    + destruct (Hok eq_refl) as (_ & _ & Hr & Hw & Hc & Hd & Hs).
      unfold singleWorker. rewrite Hw, Hc, Hd. repeat split; auto; lia.
    + destruct (Herr e eq_refl) as (_ & _ & ->). now repeat split.
  - unfold StopL2OutputSubmittingIfRunning.
    pose proof (Stop_ok_state exits s) as Hok.
    pose proof (Stop_err_state exits s) as Herr.
    destruct (StopL2OutputSubmitting exits s) as [[[]|e|p|] s1]; simpl in *;
      try discriminate.
    + intros H; injection H as <-.
      destruct (Hok eq_refl) as (_ & _ & Hr & Hw & Hc & Hd & Hs).
      unfold singleWorker. rewrite Hw, Hc, Hd. repeat split; auto; lia.
    + destruct (Herr e eq_refl) as (-> & _ & ->). simpl.
      intros H; injection H as <-. now repeat split.
  - destruct (wg s) as [|n] eqn:Hw; [discriminate|].
    intros H; injection H as <-. unfold singleWorker, workerDone. simpl.
    rewrite Hw. simpl. repeat split; auto; try lia.
Qed.

(** X16: only one worker ever exists.  After any sequence of [Start],
    [Stop] and [StopIfRunning] calls and worker exits on a freshly
    constructed driver, in which every call returned, at most one worker
    is alive, none is alive when the driver is not running, the context
    is cancelled exactly when [done] is closed, and no worker is counted
    that was not started. *)
Theorem lifecycle_single_worker ops s
  (Hrun : run ops fresh = Some s) :
  singleWorker s.
Proof.
  assert (forall t, singleWorker t -> run ops t = Some s -> singleWorker s) as Hgen.
  { clear Hrun. induction ops as [|op ops IH]; intros t Ht; simpl.
    - intros H. now injection H as <-.
    - destruct (runOp op t) as [t'|] eqn:Hop; [|discriminate].
      apply IH. now apply (runOp_singleWorker op t). }
  apply (Hgen fresh); [|exact Hrun].
  unfold singleWorker, fresh. simpl. repeat split; auto.
Qed.

End FurtherLifecycle.

(** ** Further runs on explicit inputs *)

Section FurtherExamples.

Import Lifecycle.

(** No caller can be created: the constructor returns the wrapped error
    and the trace ends with the cancellation. *)
Lemma NewL2OutputSubmitter_releases_context_witness :
  fst (NewL2OutputSubmitter broken_caller_world registry_setup start_state)
  = Err (ErrWrapped (WrapCreateL2OO 1) (ErrCollaborator 2))
  /\ endsWith EvCancel
       (trace (snd (NewL2OutputSubmitter broken_caller_world registry_setup start_state))).
Proof.
  split; [reflexivity|].
  apply (proj1 (proj2 (NewL2OutputSubmitter_releases_context
                         broken_caller_world registry_setup start_state))
           (ErrWrapped (WrapCreateL2OO 1) (ErrCollaborator 2))).
  reflexivity.
Defined.

Lemma NewL2OutputSubmitter_mode_witness :
  fst (NewL2OutputSubmitter quiet_world factory_setup start_state)
  = Ok (Some (factory_driver false))
  /\ exists a c v p w1 w2,
       DisputeGameFactoryAddr (Cfg factory_setup) = Some a
       /\ e_NewDisputeGameFactoryCaller quiet_world a (world start_state) = (Ok c, w1)
       /\ e_DGFVersion quiet_world c w1 = (Ok v, w2)
       /\ e_DGFGetAbi quiet_world w2
          = (Ok p, world (snd (NewL2OutputSubmitter quiet_world factory_setup start_state)))
       /\ dgfContract (factory_driver false) = Some c
       /\ dgfABI (factory_driver false) = Some p.
Proof.
  split; [reflexivity|].
  destruct (NewL2OutputSubmitter_mode quiet_world factory_setup start_state
              (factory_driver false)
              (snd (NewL2OutputSubmitter quiet_world factory_setup start_state))
              eq_refl) as [_ [H|H]].
  - destruct H as (a & c & v & p & w1 & w2 & Ha & _). discriminate Ha.
  - destruct H as (a & c & v & p & w1 & w2 & _ & Ha & Hc & Hv & Hp & _ & _ & Hh & Hb & _).
    exists a, c, v, p, w1, w2. now repeat split.
Defined.

Lemma construction_fails_fast_witness :
  NewL2OutputSubmitter broken_caller_world registry_setup start_state
  = (Err (ErrWrapped (WrapCreateL2OO 1) (ErrCollaborator 2)),
     mkState 1%nat [EvWithCancel; EvNewL2OOCaller 1; EvCancel; EvCancel]).
Proof.
  apply (proj1 (construction_fails_fast broken_caller_world registry_setup start_state)
           1 (ErrCollaborator 2) 1%nat); reflexivity.
Defined.

Lemma factory_driver_has_no_registry_witness :
  FetchL2OOOutput quiet_world (factory_driver false) start_state
  = (Err ErrL2OONotSet, start_state)
  /\ loop quiet_world 2 3 5 (factory_driver false) start_state
     = deferred (emit EvWgDone) (loopDGF quiet_world 2 3 5 (factory_driver false))
         start_state
  /\ count is_registry_query
       (trace (snd (loop quiet_world 2 3 5 (factory_driver false) start_state)))
     = count is_registry_query (trace start_state).
Proof.
  destruct (factory_driver_has_no_registry quiet_world factory_setup start_state
              (factory_driver false)
              (snd (NewL2OutputSubmitter quiet_world factory_setup start_state))
              eq_refl eq_refl) as (Hfetch & Hnever & Hloop & _).
  split; [apply Hfetch|]. split; [apply Hloop; reflexivity | apply Hnever].
Defined.

Lemma FetchDGFOutput_boundary_output_witness :
  exists st,
    trace (snd (FetchDGFOutput quiet_world (factory_driver false) start_state))
    = trace start_state
      ++ [EvRollupClient; EvSyncStatus (Ok st); EvRollupClient;
          EvOutputAtBlock (boundary false st) (Ok example_output)]
    /\ Version example_output = supportedL2OutputVersion
    /\ l2_Number (BlockRef example_output) = boundary false st.
Proof.
  apply (FetchDGFOutput_boundary_output quiet_world (factory_driver false) start_state
           example_output
           (snd (FetchDGFOutput quiet_world (factory_driver false) start_state))).
  reflexivity.
Defined.

Lemma FetchL2OOOutput_next_checkpoint_witness :
  exists c nextBig st rest,
    l2ooContract (registry_driver false) = Some c
    /\ trace (snd (FetchL2OOOutput quiet_world (registry_driver false) start_state))
       = trace start_state
         ++ [EvNextBlockNumber c (Ok nextBig); EvRollupClient; EvSyncStatus (Ok st);
             EvRollupClient; EvOutputAtBlock (big_Uint64 nextBig) (Ok example_output)]
         ++ rest
    /\ count is_output_fetch rest = 0%nat
    /\ l2_Number (BlockRef example_output) = big_Uint64 nextBig
    /\ big_Uint64 nextBig <= boundary false st
    /\ Version example_output = supportedL2OutputVersion.
Proof.
  apply (FetchL2OOOutput_next_checkpoint quiet_world (registry_driver false) start_state
           example_output true
           (snd (FetchL2OOOutput quiet_world (registry_driver false) start_state))).
  reflexivity.
Defined.

(** Shutdown while the head is still at 11: the wait gives up at once;
    and with a poll interval of zero the wait panics before any query. *)
Lemma waitForL1Head_interruptible_witness :
  waitLoop shutdown_world 1 11 11 start_state
  = (Err ErrDone,
     mkState 1%nat [EvLog LvlDebug LogWaitingL1Head; EvSelect SelDone])
  /\ waitForL1Head quiet_world 5 stalled_driver 11 start_state
     = (Panic NonPositiveInterval, start_state).
Proof.
  split.
  - apply (proj1 (waitForL1Head_interruptible shutdown_world) 0%nat 11 11 start_state
             1%nat).
    + vm_compute. discriminate.
    + reflexivity.
  - apply (proj2 (proj2 (proj2 (waitForL1Head_interruptible quiet_world)))
             5%nat stalled_driver 11 start_state).
    vm_compute. discriminate.
Defined.

Lemma sendTransaction_sends_once_witness :
  exists tr c rcpt lg,
    trace (snd (sendTransaction quiet_world 5 (registry_driver false) example_output
                  start_state))
    = tr ++ [EvSend c (Ok rcpt); lg]
    /\ count is_send tr = count is_send (trace start_state)
    /\ is_send lg = false
    /\ GasLimit c = 0
    /\ To c = destination (registry_driver false)
    /\ (Value c = None <-> DisputeGameFactoryAddr (cfg (registry_driver false)) = None).
Proof.
  apply (proj2 (sendTransaction_sends_once quiet_world 5 (registry_driver false)
                  example_output start_state)).
  reflexivity.
Defined.

Lemma proposeOutput_bond_failure_witness :
  proposeOutput no_bond_world 5 (factory_driver false) example_output start_state
  = (Ok tt,
     mkState 2%nat [EvBlockNumber (Ok 12); EvLog LvlInfo LogProposing;
                    EvInitBonds (Some 7%nat) 0; EvLog LvlError LogSendFailed]).
Proof.
  apply (proj2 (proposeOutput_bond_failure no_bond_world 5 (factory_driver false)
                  example_output start_state
                  (mkState 1%nat [EvBlockNumber (Ok 12)]) 2 (ErrCollaborator 3) 2%nat
                  eq_refl eq_refl eq_refl)).
Defined.

Lemma proposeOutput_swallows_errors_witness :
  fst (proposeOutput no_bond_world 5 (factory_driver false) example_output start_state)
  <> Err (ErrCollaborator 3).
Proof.
  apply (proj1 (proposeOutput_swallows_errors no_bond_world 5 (factory_driver false)
                  example_output start_state)).
Defined.

Lemma worker_one_proposal_per_tick_witness :
  fst (loop quiet_world 3 2 5 (registry_driver false) start_state) <> Err ErrDone.
Proof.
  apply (proj1 (worker_one_proposal_per_tick quiet_world 3 2 5 (registry_driver false)
                  start_state)).
Defined.

Lemma loops_return_on_shutdown_witness :
  exists tr ev,
    trace (snd (loopL2OO shutdown_world 3 5 (registry_driver false) start_state))
    = tr ++ [ev; EvLog LvlInfo LogLoopL2OOReturning]
    /\ (ev = EvSelect SelDone \/ ev = EvPollDone true).
Proof.
  apply (proj1 (loops_return_on_shutdown shutdown_world) 3%nat 5%nat
           (registry_driver false) start_state).
  reflexivity.
Defined.

Lemma loop_releases_waitgroup_witness :
  endsWith EvWgDone
    (trace (snd (loop shutdown_world 3 2 5 (registry_driver false) start_state)))
  /\ count is_wgdone
       (trace (snd (loop shutdown_world 3 2 5 (registry_driver false) start_state)))
     = (count is_wgdone (trace start_state) + 1)%nat.
Proof.
  apply (proj1 (loop_releases_waitgroup shutdown_world 3 2 5 (registry_driver false)
                  start_state)).
  vm_compute. discriminate.
Defined.

Lemma StopIfRunning_idempotent_witness :
  StopL2OutputSubmittingIfRunning 0
    (snd (StopL2OutputSubmittingIfRunning 1 (snd (StartL2OutputSubmitting fresh))))
  = (Ok tt, snd (StopL2OutputSubmittingIfRunning 1 (snd (StartL2OutputSubmitting fresh)))).
Proof.
  apply (proj2 (StopIfRunning_idempotent 1 0 (snd (StartL2OutputSubmitting fresh)))).
  reflexivity.
Defined.

Lemma lifecycle_single_worker_witness :
  singleWorker {| running := true; wg := 0; spawned := 2;
                  cancelled := true; done_closed := true |}.
Proof.
  apply (lifecycle_single_worker [OpStart; OpStart; OpWorkerDone; OpStopIfRunning 0;
                                  OpStopIfRunning 0; OpStart; OpWorkerDone]).
  reflexivity.
Defined.

Lemma tickL2OO_skips_witness :
  fst (tickL2OO early_world 5 (registry_driver false) start_state) = Ok false
  /\ count is_send (trace (snd (tickL2OO early_world 5 (registry_driver false) start_state)))
     = count is_send (trace start_state).
Proof.
  destruct (tickL2OO_skips early_world 5 (registry_driver false) start_state
              (mkState 1%nat [EvPollDone false]) (Ok (None, false))
              (snd (FetchL2OOOutput early_world (registry_driver false)
                      (mkState 1%nat [EvPollDone false])))
              eq_refl eq_refl
              (or_intror (ex_intro _ None eq_refl))) as (Hr & Hs & _).
  split; [exact Hr | exact Hs].
Defined.

Lemma loop_exits_on_sync_failure_witness :
  loop no_sync_world 3 2 5 syncing_driver start_state
  = (Ok tt,
     mkState 3%nat [EvBlockNumber (Ok 12); EvRollupClient; EvWaitRollupSync 12;
                    EvLog LvlError LogNodeSyncError; EvWgDone]).
Proof.
  apply (proj1 (loop_exits_on_sync_failure no_sync_world 3 2 5 syncing_driver start_state
                  (ErrCollaborator 4)
                  (mkState 3%nat [EvBlockNumber (Ok 12); EvRollupClient;
                                  EvWaitRollupSync 12])
                  eq_refl eq_refl)).
Defined.

End FurtherExamples.
